(** * Alix Keyword Tracer: a model of [app.py] and its column-detection,
    combining, keyword-matching and projection behaviour.

    The script is a Streamlit page.  Its one helper, [detect_column], and the
    statements executed when the "Filter Stories" button is pressed are
    embedded below, together with the parts of the Python standard library
    ([str], [re]) and of pandas ([astype], [str.contains], [concat], [loc])
    they call.

    Scope of the model.  Text is a [string] of 8-bit characters, read as the
    code points U+0000 to U+00FF: lower-casing, blank characters and the
    case folding of [re.IGNORECASE] are Python's on that range (the
    tables are fixed by [isspace_table], [lower_char_table] and
    [lower_char_same_letter] below); text with code points above U+00FF is
    outside the model.  Column labels are strings.  A cell is a value as a
    frame stores it: a string, an integer, a boolean or the missing value;
    floats and dates are left out, and so is the change of dtype of a
    column that gains a missing value.  [astype(str)] on a cell is modelled
    as pandas 1.x/2.x apply it (the missing value becomes text); the
    properties of the mask are stated on the text series, whatever the
    coercion produced. *)

From Stdlib Require Import Ascii String ZArith NArith Lia.
From stdpp Require Import base list sorting strings pretty.

(** ** Python's [str] methods used by the script *)

Module str.

(** The code points below 256 that [lower] changes: A-Z, and the Latin-1
    capitals 192-214 and 216-222; each is 32 below its lower-case form. *)
Definition isupper (c : ascii) : bool :=
  let n := N_of_ascii c in
  ((65 <=? n) && (n <=? 90) || (192 <=? n) && (n <=? 214)
   || (216 <=? n) && (n <=? 222))%N.

Definition lower_char (c : ascii) : ascii :=
  if isupper c then ascii_of_N (N_of_ascii c + 32) else c.

(** [s.lower()] *)
Fixpoint lower (s : string) : string :=
  match s with
  | EmptyString => EmptyString
  | String c r => String (lower_char c) (lower r)
  end.

(** The blank characters [strip] removes, below 256: tab, line feed,
    vertical tab, form feed, carriage return, the four separators 28..31,
    the space, next line (133) and the no-break space (160). *)
Definition isspace (c : ascii) : bool :=
  let n := N_of_ascii c in
  ((9 <=? n) && (n <=? 13) || (28 <=? n) && (n <=? 32)
   || (n =? 133) || (n =? 160))%N.

Fixpoint lstrip (s : string) : string :=
  match s with
  | EmptyString => EmptyString
  | String c r => if isspace c then lstrip r else s
  end.

Fixpoint rstrip (s : string) : string :=
  match s with
  | EmptyString => EmptyString
  | String c r =>
      match rstrip r with
      | EmptyString => if isspace c then EmptyString else String c EmptyString
      | r' => String c r'
      end
  end.

(** [s.strip()] *)
Definition strip (s : string) : string := rstrip (lstrip s).

(** [s.split(sep)] for a one-character separator: never an empty list. *)
Fixpoint split (sep : ascii) (s : string) : list string :=
  match s with
  | EmptyString => [EmptyString]
  | String c r =>
      if decide (c = sep) then EmptyString :: split sep r
      else match split sep r with
           | piece :: pieces => String c piece :: pieces
           | [] => [String c EmptyString]
           end
  end.

(** [sep.join(parts)] *)
Fixpoint join (sep : string) (parts : list string) : string :=
  match parts with
  | [] => EmptyString
  | p :: rest =>
      match rest with
      | [] => p
      | _ :: _ => p +:+ sep +:+ join sep rest
      end
  end.

(** Truth value of a string: non-empty. *)
Definition truthy (s : string) : bool :=
  match s with EmptyString => false | String _ _ => true end.

End str.

(** ** Python's [re]: [escape], and [compile]/[search] on the fragment of the
    pattern syntax made of literals, escapes, [.] and [|] *)

Module re.

Fixpoint mem_char (c : ascii) (s : string) : bool :=
  match s with
  | EmptyString => false
  | String d r => bool_decide (c = d) || mem_char c r
  end.

(** The keys of [re._special_chars_map]: [()[]{}?*+-|^$\.&~# \t\n\r\v\f]. *)
Definition special_chars : string :=
  "()[]{}?*+-|^$\.&~# " +:+
  String "009" (String "010" (String "013" (String "011" (String "012" EmptyString)))).

Definition is_special (c : ascii) : bool := mem_char c special_chars.

(** [re.escape(pattern)]: a backslash before every special character. *)
Fixpoint escape (pattern : string) : string :=
  match pattern with
  | EmptyString => EmptyString
  | String c r =>
      if is_special c then String "\" (String c (escape r))
      else String c (escape r)
  end.

Inductive atom : Type :=
  | Lit (c : ascii)
  | AnyChar.

(** A compiled pattern: its alternatives, each a sequence of atoms. *)
Definition regex : Type := list (list atom).

Definition push (a : atom) (r : regex) : regex :=
  match r with
  | alt :: alts => (a :: alt) :: alts
  | [] => [[a]]
  end.

Definition isalnum (c : ascii) : bool :=
  let n := N_of_ascii c in
  ((48 <=? n) && (n <=? 57) || (65 <=? n) && (n <=? 90)
   || (97 <=? n) && (n <=? 122))%N.

(** Unescaped characters that start syntax outside the fragment: classes,
    groups, repetitions and anchors. *)
Definition beyond_fragment (c : ascii) : bool := mem_char c "[(){*+?^$".

(** [re.compile(pattern)].  [None] stands for a pattern that [re] rejects
    (a trailing backslash) or that uses syntax outside the fragment (a
    backslash before a letter or digit, or a character of
    [beyond_fragment]). *)
Fixpoint compile (pattern : string) : option regex :=
  match pattern with
  | EmptyString => Some [[]]
  | String c rest =>
      if decide (c = "|"%char) then cons [] <$> compile rest
      else if decide (c = "\"%char) then
        match rest with
        | EmptyString => None
        | String d rest' =>
            if isalnum d then None else push (Lit d) <$> compile rest'
        end
      else if decide (c = "."%char) then push AnyChar <$> compile rest
      else if beyond_fragment c then None
      else push (Lit c) <$> compile rest
  end.

(** One atom against one character; [ignorecase] is the flag
    [re.IGNORECASE]: below 256 a literal matches the characters with the
    same lower-case form.  The dot does not match a line feed. *)
Definition char_matches (ignorecase : bool) (a : atom) (d : ascii) : bool :=
  match a with
  | Lit c =>
      if ignorecase then bool_decide (str.lower_char c = str.lower_char d)
      else bool_decide (c = d)
  | AnyChar => negb (bool_decide (d = "010"%char))
  end.

(** An alternative matched at the start of [s]. *)
Fixpoint match_here (ignorecase : bool) (alt : list atom) (s : string) : bool :=
  match alt with
  | [] => true
  | a :: alt' =>
      match s with
      | EmptyString => false
      | String d s' => char_matches ignorecase a d && match_here ignorecase alt' s'
      end
  end.

(** [regex.search(s) is not None]: some alternative matches at some
    position of [s]. *)
Fixpoint search (ignorecase : bool) (r : regex) (s : string) : bool :=
  existsb (fun alt => match_here ignorecase alt s) r
  || match s with
     | EmptyString => false
     | String _ s' => search ignorecase r s'
     end.

End re.

(** ** Outcomes of a Python computation *)

Inductive exn : Type :=
  | KeyError (label : string)
  | ValueError
  | IndexError
  | IndexingError
  | TypeError
  | NameError
  | ReError.

(** A value, an exception, or [st.stop()]: the script run ends there. *)
Inductive outcome (A : Type) : Type :=
  | Ok (a : A)
  | Raise (e : exn)
  | Stop.
Arguments Ok {A} a.
Arguments Raise {A} e.
Arguments Stop {A}.

#[global] Instance outcome_ret : MRet outcome := fun A a => Ok a.
#[global] Instance outcome_bind : MBind outcome := fun A B f m =>
  match m with
  | Ok a => f a
  | Raise e => Raise e
  | Stop => Stop
  end.

(** ** pandas: cells, frames and the operations the script calls *)

Module pd.

Inductive cell : Type :=
  | CStr (s : string)
  | CInt (n : Z)
  | CBool (b : bool)
  | NaN.

#[global] Instance cell_eq_dec : EqDecision cell.
Proof. solve_decision. Defined.

(** A frame: its column labels in order and its rows in order, each row
    holding one cell per column.  The row labels are their positions
    ([ignore_index=True] on the combined frame). *)
Record DataFrame : Type := mkDataFrame {
  columns : list string;
  rows : list (list cell)
}.

(** What [read_excel] hands over: distinct labels and full rows. *)
Definition well_formed (df : DataFrame) : Prop :=
  NoDup (columns df) ∧ Forall (fun r => length r = length (columns df)) (rows df).

(** [str(x)] of one stored cell, as [Series.astype(str)] applies it in
    pandas 1.x/2.x.  An integer held in a float column is stored as a float
    and is outside the model. *)
Definition to_str (c : cell) : string :=
  match c with
  | CStr s => s
  | CInt n => pretty n
  | CBool true => "True"
  | CBool false => "False"
  | NaN => "nan"
  end.

(** [series.astype(str)] in pandas 1.x/2.x: a string series without missing
    entries.  (Later releases keep a missing cell missing; [text_mask] is
    stated for series with and without missing entries.) *)
Definition astype_str (series : list cell) : list (option string) :=
  map (fun c => Some (to_str c)) series.

(** [Index.get_loc(label)]: position of the label. *)
Fixpoint get_loc (label : string) (cols : list string) : option nat :=
  match cols with
  | [] => None
  | c :: r => if decide (c = label) then Some 0 else S <$> get_loc label r
  end.

Definition cell_at (row : list cell) (j : nat) : cell := default NaN (row !! j).

(** The column at position [j]. *)
Definition getitem_values (df : DataFrame) (j : nat) : list cell :=
  map (fun r => cell_at r j) (rows df).

(** [df[label]] *)
Definition getitem (df : DataFrame) (label : string) : outcome (list cell) :=
  match get_loc label (columns df) with
  | None => Raise (KeyError label)
  | Some j => Ok (getitem_values df j)
  end.

(** [series.str.contains(pat, case=case, na=na)] with the default
    [regex=True]: the pattern is compiled once, with [re.IGNORECASE] unless
    [case]; a missing entry gives [na]. *)
Definition str_contains (series : list (option string)) (pat : string)
    (case na : bool) : outcome (list bool) :=
  match re.compile pat with
  | None => Raise ReError
  | Some r =>
      Ok (map (fun x => match x with
                        | Some s => re.search (negb case) r s
                        | None => na
                        end) series)
  end.

(** Union of column labels, in order of first appearance. *)
Definition union_columns (acc cols : list string) : list string :=
  foldl (fun a c => if bool_decide (c ∈ a) then a else a ++ [c]) acc cols.

(** A row of a frame with columns [cols] laid out on [new_cols]: a label the
    frame lacks gets the missing value. *)
Definition reindex (cols new_cols : list string) (row : list cell) : list cell :=
  map (fun c => match get_loc c cols with
                | Some j => cell_at row j
                | None => NaN
                end) new_cols.

(** [pd.concat(dfs, ignore_index=True)]: outer join on the columns
    ([sort=False]), rows stacked in the order of [dfs]; an empty list raises
    [ValueError].  Cells are carried as they are: the model has no dtypes,
    so an integer column that gains a missing value keeps its integers,
    where pandas stores them as floats. *)
Definition concat (dfs : list DataFrame) : outcome DataFrame :=
  match dfs with
  | [] => Raise ValueError
  | _ :: _ =>
      let cols := foldl (fun acc df => union_columns acc (columns df)) [] dfs in
      Ok {| columns := cols;
            rows := flat_map (fun df => map (reindex (columns df) cols) (rows df)) dfs |}
  end.

(** Rows kept by a boolean mask. *)
Fixpoint select {A : Type} (mask : list bool) (l : list A) : list A :=
  match mask, l with
  | m :: mask', x :: l' => if m then x :: select mask' l' else select mask' l'
  | _, _ => []
  end.

Fixpoint get_locs (labels cols : list string) : outcome (list nat) :=
  match labels with
  | [] => Ok []
  | l :: rest =>
      match get_loc l cols with
      | None => Raise (KeyError l)
      | Some j => js ← get_locs rest cols; Ok (j :: js)
      end
  end.

(** [df.loc[mask, labels]] for a boolean series [mask] on the frame's own
    index and a list of column labels. *)
Definition loc (df : DataFrame) (mask : list bool) (labels : list string)
    : outcome DataFrame :=
  if decide (length mask = length (rows df)) then
    js ← get_locs labels (columns df);
    Ok {| columns := labels;
          rows := map (fun r => map (cell_at r) js) (select mask (rows df)) |}
  else Raise IndexingError.

(** The sheet [to_excel(writer, index=False, sheet_name=...)] writes. *)
Record sheet : Type := mkSheet {
  sheet_name : string;
  header : list string;
  body : list (list cell)
}.

Definition to_excel (df : DataFrame) (name : string) : sheet :=
  {| sheet_name := name; header := columns df; body := rows df |}.

End pd.

(** ** The script *)

(** *** [detect_column] *)

(** [cols_lower.index(c)] *)
Definition list_index (c : string) (l : list string) : outcome nat :=
  match pd.get_loc c l with
  | Some i => Ok i
  | None => Raise ValueError
  end.

(** [columns[i]] *)
Definition list_item (l : list string) (i : nat) : outcome string :=
  match l !! i with
  | Some x => Ok x
  | None => Raise IndexError
  end.

(** The [for c in candidates] loop; [None] is Python's [None].  Column
    labels are strings, as the script's [c.lower()] expects. *)
Fixpoint detect_loop (columns cols_lower candidates : list string)
    : outcome (option string) :=
  match candidates with
  | [] => Ok None
  | c :: rest =>
      if bool_decide (c ∈ cols_lower) then
        i ← list_index c cols_lower;
        col ← list_item columns i;
        Ok (Some col)
      else detect_loop columns cols_lower rest
  end.

Definition detect_column (columns candidates : list string)
    : outcome (option string) :=
  let cols_lower := map str.lower columns in
  detect_loop columns cols_lower candidates.

(** *** Keywords and the mask *)

(** The two choices of the "Match mode" radio button. *)
Inductive match_mode : Type :=
  | AnyKeyword   (* "Any keyword (OR)" *)
  | AllKeywords. (* "All keywords (AND)" *)

(** [[k.strip() for k in keyword_text.split(",") if k.strip()]] *)
Definition parse_keywords (keyword_text : string) : list string :=
  omap (fun k => if str.truthy (str.strip k) then Some (str.strip k) else None)
       (str.split "," keyword_text).

(** ["|".join(re.escape(k) for k in keywords)] *)
Definition any_pattern (keywords : list string) : string :=
  str.join "|" (map re.escape keywords).

(** [mask &= other] on boolean series over the same index. *)
Definition series_and (mask other : list bool) : list bool :=
  zip_with andb mask other.

(** The [for k in keywords] loop of the AND branch. *)
Fixpoint all_loop (descriptions : list (option string)) (keywords : list string)
    (mask : list bool) : outcome (list bool) :=
  match keywords with
  | [] => Ok mask
  | k :: rest =>
      other ← pd.str_contains descriptions (re.escape k) false false;
      all_loop descriptions rest (series_and mask other)
  end.

(** The mask of lines 131-139, as a value: [column] is
    [combined_df[desc_col]]; [pd.Series(True, index=combined_df.index)] has
    one entry per row. *)
Definition mask (mode : match_mode) (keywords : list string) (column : list pd.cell)
    : outcome (list bool) :=
  let descriptions := pd.astype_str column in
  match mode with
  | AnyKeyword => pd.str_contains descriptions (any_pattern keywords) false false
  | AllKeywords => all_loop descriptions keywords (replicate (length column) true)
  end.

(** Lines 133-139 on the series [descriptions] that line 131 produced,
    whatever it holds; [mask] is this on [pd.astype_str column]. *)
Definition text_mask (mode : match_mode) (keywords : list string)
    (descriptions : list (option string)) : outcome (list bool) :=
  match mode with
  | AnyKeyword => pd.str_contains descriptions (any_pattern keywords) false false
  | AllKeywords => all_loop descriptions keywords (replicate (length descriptions) true)
  end.

(** *** The run of "Filter Stories" over a store of objects

    Frames and series are objects with identity: a name of the script holds
    a reference, [&=] updates its target in place, and every pandas call
    that builds a frame or series allocates a new object. *)

Inductive obj : Type :=
  | Frame (df : pd.DataFrame)
  | Series (values : list pd.cell)
  | StrSeries (values : list (option string))
  | BoolSeries (values : list bool).

(** What the page shows. *)
Inductive event : Type :=
  | warning (msg : string)
  | subheader (text : string)
  | dataframe (df : pd.DataFrame)
  | download_button (data : pd.sheet) (file_name mime : string).

Record store : Type := mkStore {
  heap : list obj;
  page : list event
}.

Definition M (A : Type) : Type := store → outcome A * store.

#[global] Instance M_ret : MRet M := fun A a σ => (Ok a, σ).
#[global] Instance M_bind : MBind M := fun A B f m σ =>
  match m σ with
  | (Ok a, σ') => f a σ'
  | (Raise e, σ') => (Raise e, σ')
  | (Stop, σ') => (Stop, σ')
  end.

Definition lift {A : Type} (o : outcome A) : M A := fun σ => (o, σ).

Definition alloc (o : obj) : M nat := fun σ =>
  (Ok (length (heap σ)), {| heap := heap σ ++ [o]; page := page σ |}).

Definition read (l : nat) : M obj := fun σ =>
  match heap σ !! l with
  | Some o => (Ok o, σ)
  | None => (Raise NameError, σ)
  end.

Definition write (l : nat) (o : obj) : M unit := fun σ =>
  (Ok tt, {| heap := <[l := o]> (heap σ); page := page σ |}).

Definition emit (e : event) : M unit := fun σ =>
  (Ok tt, {| heap := heap σ; page := page σ ++ [e] |}).

Definition st_stop {A : Type} : M A := lift Stop.

Definition read_frame (l : nat) : M pd.DataFrame :=
  o ← read l; match o with Frame df => mret df | _ => lift (Raise TypeError) end.

Definition read_series (l : nat) : M (list pd.cell) :=
  o ← read l; match o with Series v => mret v | _ => lift (Raise TypeError) end.

Definition read_str (l : nat) : M (list (option string)) :=
  o ← read l; match o with StrSeries v => mret v | _ => lift (Raise TypeError) end.

Definition read_bool (l : nat) : M (list bool) :=
  o ← read l; match o with BoolSeries v => mret v | _ => lift (Raise TypeError) end.

(** [df[label]]: a new series. *)
Definition df_getitem (df : nat) (label : string) : M nat :=
  d ← read_frame df; v ← lift (pd.getitem d label); alloc (Series v).

(** [series.astype(str)]: a new series. *)
Definition series_astype_str (s : nat) : M nat :=
  v ← read_series s; alloc (StrSeries (pd.astype_str v)).

(** [series.str.contains(pat, case=False, na=False)]: a new series. *)
Definition series_str_contains (s : nat) (pat : string) : M nat :=
  v ← read_str s; b ← lift (pd.str_contains v pat false false); alloc (BoolSeries b).

(** [pd.Series(True, index=df.index)]: a new series. *)
Definition series_true (df : nat) : M nat :=
  d ← read_frame df; alloc (BoolSeries (replicate (length (pd.rows d)) true)).

(** [mask &= other]: the object [mask] refers to is updated. *)
Definition series_iand (mask other : nat) : M unit :=
  a ← read_bool mask; b ← read_bool other; write mask (BoolSeries (series_and a b)).

(** [df.loc[mask, labels]]: a new frame. *)
Definition df_loc (df mask : nat) (labels : list string) : M nat :=
  d ← read_frame df; m ← read_bool mask; r ← lift (pd.loc d m labels); alloc (Frame r).

(** [df.copy()]: a new frame with the same contents. *)
Definition df_copy (df : nat) : M nat :=
  d ← read_frame df; alloc (Frame d).

Fixpoint all_loop_run (descriptions mask : nat) (keywords : list string) : M unit :=
  match keywords with
  | [] => mret tt
  | k :: rest =>
      other ← series_str_contains descriptions (re.escape k);
      series_iand mask other;;
      all_loop_run descriptions mask rest
  end.

(** Lines 133-139. *)
Definition compute_mask (combined_df descriptions : nat) (mode : match_mode)
    (keywords : list string) : M nat :=
  match mode with
  | AnyKeyword =>
      let pattern := any_pattern keywords in
      series_str_contains descriptions pattern
  | AllKeywords =>
      mask ← series_true combined_df;
      all_loop_run descriptions mask keywords;;
      mret mask
  end.

Definition results_title (n : nat) : string :=
  "Results (" +:+ pretty n +:+ " stories found)".

Definition xlsx_mime : string :=
  "application/vnd.openxmlformats-officedocument.spreadsheetml.sheet".

(** Lines 121-159, the body of [if st.button("Filter Stories")]: the
    reference [combined_df] and the widget values [desc_col], [retain_cols],
    [keyword_text] and [match_mode] are its inputs; it returns the reference
    held by [filtered]. *)
Definition filter_stories (combined_df : nat) (desc_col : string)
    (retain_cols : list string) (keyword_text : string) (mode : match_mode)
    : M nat :=
  if negb (str.truthy (str.strip keyword_text)) then
    emit (warning "Please enter at least one keyword.");; st_stop
  else
    let keywords := parse_keywords keyword_text in
    if bool_decide (keywords = []) then
      emit (warning "No valid keywords parsed.");; st_stop
    else
      column ← df_getitem combined_df desc_col;
      descriptions ← series_astype_str column;
      mask ← compute_mask combined_df descriptions mode keywords;
      selected ← df_loc combined_df mask retain_cols;
      filtered ← df_copy selected;
      d ← read_frame filtered;
      emit (subheader (results_title (length (pd.rows d))));;
      emit (dataframe d);;
      emit (download_button (pd.to_excel d "FilteredStories")
              "filtered_user_stories.xlsx" xlsx_mime);;
      mret filtered.

(** The store a run starts from: the combined frame and nothing shown. *)
Definition initial (combined : pd.DataFrame) : store :=
  {| heap := [Frame combined]; page := [] |}.

(** ** Specification vocabulary *)

(** The capital letters below 256, by code point: A-Z, À-Ö and Ø-Þ.  The
    lower-case form of each is 32 above it. *)
Definition capital_ranges : list (N * N) := [(65, 90); (192, 214); (216, 222)]%N.

Definition capital (n : N) : bool :=
  existsb (fun r => (fst r <=? n) && (n <=? snd r))%N capital_ranges.

(** Two characters are the same letter up to case: equal, or a capital and
    its lower-case form. *)
Definition same_letter (c d : ascii) : Prop :=
  c = d
  ∨ (capital (N_of_ascii c) = true ∧ N_of_ascii d = (N_of_ascii c + 32)%N)
  ∨ (capital (N_of_ascii d) = true ∧ N_of_ascii c = (N_of_ascii d + 32)%N).

(** [same_letter] as a boolean. *)
Definition same_letter_b (c d : ascii) : bool :=
  bool_decide (c = d)
  || capital (N_of_ascii c) && bool_decide (N_of_ascii d = (N_of_ascii c + 32)%N)
  || capital (N_of_ascii d) && bool_decide (N_of_ascii c = (N_of_ascii d + 32)%N).

(** Two texts of the same length, letter by letter the same up to case. *)
Inductive same_text : string → string → Prop :=
  | same_text_nil : same_text EmptyString EmptyString
  | same_text_cons c d s t :
      same_letter c d → same_text s t → same_text (String c s) (String d t).

(** [k] occurs in [t] as a literal substring, ignoring case: [t] has a
    segment that is [k] up to the case of its letters. *)
Definition occurs_in (k t : string) : Prop :=
  ∃ pre mid post, t = pre +:+ mid +:+ post ∧ same_text mid k.

(** The blank characters below 256, by code point: the ASCII controls
    9-13 and 28-31, the space, next line and the no-break space. *)
Definition blank_codes : list N := [9; 10; 11; 12; 13; 28; 29; 30; 31; 32; 133; 160]%N.

Definition is_blank (c : ascii) : bool := bool_decide (N_of_ascii c ∈ blank_codes).

(** Only blanks, by the table. *)
Fixpoint blanks (s : string) : bool :=
  match s with
  | EmptyString => true
  | String c r => is_blank c && blanks r
  end.

(** What a series entry gives against a compiled pattern: a missing entry
    gives [na=False]. *)
Definition hit (r : re.regex) (x : option string) : bool :=
  match x with
  | Some t => re.search true r t
  | None => false
  end.

(** Every 8-bit character. *)
Definition all_ascii : list ascii := map ascii_of_nat (seq 0 256).

(** The atoms that match the characters of [k] and nothing else. *)
Fixpoint literal (k : string) : list re.atom :=
  match k with
  | EmptyString => []
  | String c r => re.Lit c :: literal r
  end.

(** The alternatives [any_pattern] should compile to. *)
Definition literals (keywords : list string) : re.regex :=
  match keywords with
  | [] => [[]]
  | _ :: _ => map literal keywords
  end.

(** [l] put in front of the first alternative. *)
Definition push_all (l : list re.atom) (r : re.regex) : re.regex :=
  foldr re.push r l.

(** Number of rows a mask keeps. *)
Definition matched (mask : list bool) : nat := length (filter (fun b => b = true) mask).

(** Total number of rows of a sequence of tables. *)
Definition row_count (dfs : list pd.DataFrame) : nat :=
  sum_list (map (fun df => length (pd.rows df)) dfs).

(** [union] is the union of the labels of [seen] in order of first
    appearance: it has no repetition, holds exactly the labels of [seen], and
    lists them by the position at which each first occurs in [seen]. *)
Definition ordered_union (union seen : list string) : Prop :=
  NoDup union ∧
  (∀ c, c ∈ union ↔ c ∈ seen) ∧
  (∀ i j c d, union !! i = Some c → union !! j = Some d → i < j →
     ∃ pi pj, pd.get_loc c seen = Some pi ∧ pd.get_loc d seen = Some pj ∧ pi < pj).

(** Positions of the rows a mask keeps, in increasing order. *)
Definition true_positions (mask : list bool) : list nat :=
  filter (fun i => mask !! i = Some true) (seq 0 (length mask)).

(** The example table of the scenario. *)
Definition stories : pd.DataFrame :=
  {| pd.columns := ["id"; "desc"];
     pd.rows := [ [pd.CStr "US1"; pd.CStr "Add masking for PII"];
                  [pd.CStr "US2"; pd.CStr "Improve login speed"];
                  [pd.CStr "US3"; pd.CStr "Audit privacy and security logs"] ] |}.

(** Only blank characters. *)
Fixpoint all_blank (s : string) : bool :=
  match s with
  | EmptyString => true
  | String c r => str.isspace c && all_blank r
  end.

(** The filtered table as a value: column, mask, projection. *)
Definition filtered_value (df : pd.DataFrame) (desc_col : string)
    (retain_cols : list string) (keyword_text : string) (mode : match_mode)
    : outcome pd.DataFrame :=
  column ← pd.getitem df desc_col;
  bs ← mask mode (parse_keywords keyword_text) column;
  pd.loc df bs retain_cols.

(** A second upload, with another set of columns. *)
Definition backlog : pd.DataFrame :=
  {| pd.columns := ["owner"; "id"];
     pd.rows := [ [pd.CStr "ana"; pd.CStr "US4"] ] |}.

(** ** The rest of the page *)

(** *** Lines 36-57: reading the uploads and combining them *)

(** An uploaded file as the loop of lines 41-52 sees it: its name, and what
    opening it, choosing a sheet and reading that sheet gives: a table, or
    the text of the exception caught by [except Exception as e]. *)
Record uploaded_file : Type := mkUpload {
  name : string;
  read_excel : string + pd.DataFrame
}.

(** What lines 36-57 and 162-163 put on the page. *)
Inductive notice : Type :=
  | st_error (msg : string)
  | st_info (msg : string).

(** [f"Error reading {file.name}: {e}"] *)
Definition error_message (file : uploaded_file) (e : string) : string :=
  "Error reading " +:+ name file +:+ ": " +:+ e.

(** The [for file in uploaded_files] loop, threading the list [dfs] and the
    notices shown so far. *)
Fixpoint read_files (uploaded_files : list uploaded_file)
    (dfs : list pd.DataFrame) (shown : list notice)
    : list pd.DataFrame * list notice :=
  match uploaded_files with
  | [] => (dfs, shown)
  | file :: rest =>
      match read_excel file with
      | inr df => read_files rest (dfs ++ [df]) shown
      | inl e => read_files rest dfs (shown ++ [st_error (error_message file e)])
      end
  end.

(** How the first part of the script ends. *)
Inductive load_result : Type :=
  | NoUpload                            (* the [else] branch of line 162 *)
  | Stopped                             (* [st.stop()] of line 55 *)
  | Loaded (combined_df : pd.DataFrame) (* line 57 returned *)
  | Failed (e : exn).                   (* line 57 raised *)

(** Lines 36-57 and 162-163. *)
Definition load (uploaded_files : list uploaded_file) : load_result * list notice :=
  match uploaded_files with
  | [] => (NoUpload, [st_info "Upload one or more Excel files to begin."])
  | _ :: _ =>
      let '(dfs, shown) := read_files uploaded_files [] [] in
      match dfs with
      | [] => (Stopped, shown)
      | _ :: _ =>
          match pd.concat dfs with
          | Ok combined_df => (Loaded combined_df, shown)
          | Raise e => (Failed e, shown)
          | Stop => (Stopped, shown)
          end
      end
  end.

(** *** Lines 64-79: the preselected columns *)

Definition id_candidates : list string := ["user story id"; "id"; "story id"].

Definition desc_candidates : list string :=
  ["description"; "user story description"; "desc"].

(** Truth value of what [detect_column] returns: [None] and the empty
    string are false. *)
Definition found_truthy (found : option string) : bool :=
  match found with
  | Some c => str.truthy c
  | None => false
  end.

(** [columns.index(detect_column(columns, candidates))
      if detect_column(columns, candidates) else fallback]:
    the condition is evaluated first, then the chosen branch. *)
Definition default_index (columns candidates : list string) (fallback : nat)
    : outcome nat :=
  cond ← detect_column columns candidates;
  if found_truthy cond then
    found ← detect_column columns candidates;
    match found with
    | Some c => list_index c columns
    | None => Raise ValueError
    end
  else Ok fallback.

(** The [index] argument of the two select boxes. *)
Definition id_index (columns : list string) : outcome nat :=
  default_index columns id_candidates 0.

Definition desc_index (columns : list string) : outcome nat :=
  default_index columns desc_candidates 1.

(** *** Lines 92-100: the retained columns and their preview *)

(** [df[labels]] for a list of labels: the columns in the order given. *)
Definition getitem_list (df : pd.DataFrame) (labels : list string)
    : outcome pd.DataFrame :=
  js ← pd.get_locs labels (pd.columns df);
  Ok {| pd.columns := labels;
        pd.rows := map (fun r => map (pd.cell_at r) js) (pd.rows df) |}.

(** [df.head(n)] *)
Definition head (n : nat) (df : pd.DataFrame) : pd.DataFrame :=
  {| pd.columns := pd.columns df; pd.rows := take n (pd.rows df) |}.

(** Lines 92-100: [Stop] is the warning followed by [st.stop()]; otherwise
    the table handed to [st.dataframe]. *)
Definition preview (combined_df : pd.DataFrame) (retain_cols : list string)
    : outcome pd.DataFrame :=
  if bool_decide (length retain_cols = 0) then Stop
  else
    selected ← getitem_list combined_df retain_cols;
    Ok (head 10 selected).

(** *** Vocabulary for the properties of these parts *)

(** The tables of the files that could be read, in upload order. *)
Definition readable (uploaded_files : list uploaded_file) : list pd.DataFrame :=
  omap (fun file => match read_excel file with
                    | inr df => Some df
                    | inl _ => None
                    end) uploaded_files.

(** One error notice per file that could not be read, in upload order. *)
Definition read_errors (uploaded_files : list uploaded_file) : list notice :=
  omap (fun file => match read_excel file with
                    | inr _ => None
                    | inl e => Some (st_error (error_message file e))
                    end) uploaded_files.

(** The last character is a blank. *)
Fixpoint ends_blank (s : string) : bool :=
  match s with
  | EmptyString => false
  | String c r =>
      match r with
      | EmptyString => is_blank c
      | String _ _ => ends_blank r
      end
  end.

(** The first character is a blank. *)
Definition starts_blank (s : string) : bool :=
  match s with
  | EmptyString => false
  | String c _ => is_blank c
  end.

(** A keyword as [parse_keywords] yields them: not empty, no comma, no blank
    at either end. *)
Definition clean_keyword (k : string) : Prop :=
  k ≠ "" ∧ re.mem_char "," k = false ∧ starts_blank k = false ∧ ends_blank k = false.

(** An uploaded file without any of the preselection aliases. *)
Definition tracker : pd.DataFrame :=
  {| pd.columns := ["Key"; "Summary"];
     pd.rows := [ [pd.CInt 7; pd.CStr "Mask the audit log"] ] |}.

(** * Properties *)

(** ** The model on examples *)

Example lower_mixed : str.lower "User Story ID" = "user story id".
Proof. reflexivity. Qed.

Example strip_blanks : str.strip "  log in  " = "log in".
Proof. reflexivity. Qed.

Example split_commas :
  str.split "," "security, masking,,privacy" = ["security"; " masking"; ""; "privacy"].
Proof. reflexivity. Qed.

Example escape_dot : re.escape "a.b" = "a\.b".
Proof. reflexivity. Qed.

Example compile_escaped_dot :
  re.compile "a\.b|c" = Some [[re.Lit "a"; re.Lit "."; re.Lit "b"]; [re.Lit "c"]].
Proof. reflexivity. Qed.

Example compile_raw_dot :
  re.compile "a.b" = Some [[re.Lit "a"; re.AnyChar; re.Lit "b"]].
Proof. reflexivity. Qed.

Example detect_id :
  detect_column ["Title"; "User Story ID"; "Description"] ["user story id"; "id"; "story id"]
  = Ok (Some "User Story ID").
Proof. reflexivity. Qed.

Example parse_default :
  parse_keywords "security, masking, privacy" = ["security"; "masking"; "privacy"].
Proof. reflexivity. Qed.


Example scenario_any :
  fst (filter_stories 0 "desc" ["id"] "security, privacy" AnyKeyword (initial stories))
  = Ok 5.
Proof. vm_compute. reflexivity. Qed.

(** ** Strings *)

Lemma append_cons c s r : String c s +:+ r = String c (s +:+ r).
Proof. reflexivity. Qed.

Lemma append_nil_l s : "" +:+ s = s.
Proof. reflexivity. Qed.

Lemma append_nil_r s : s +:+ "" = s.
Proof. induction s as [|c s IH]; [done|]. by rewrite append_cons, IH. Qed.

Lemma append_assoc s1 s2 s3 : (s1 +:+ s2) +:+ s3 = s1 +:+ s2 +:+ s3.
Proof.
  induction s1 as [|c s1 IH]; [done|].
  by rewrite !append_cons, IH.
Qed.

Lemma lower_app s1 s2 : str.lower (s1 +:+ s2) = str.lower s1 +:+ str.lower s2.
Proof.
  induction s1 as [|c s1 IH]; [done|].
  rewrite append_cons. simpl. by rewrite IH, append_cons.
Qed.

Lemma lower_char_idemp c : str.lower_char (str.lower_char c) = str.lower_char c.
Proof. by destruct c as [[] [] [] [] [] [] [] []]. Qed.

Lemma lower_idemp s : str.lower (str.lower s) = str.lower s.
Proof.
  induction s as [|c s IH]; [done|].
  simpl. by rewrite lower_char_idemp, IH.
Qed.

(** ** The tables of the model: blanks and case *)

Lemma all_ascii_complete c : c ∈ all_ascii.
Proof.
  unfold all_ascii. apply list_elem_of_fmap. exists (nat_of_ascii c).
  split; [by rewrite ascii_nat_embedding|].
  apply elem_of_seq. pose proof (nat_ascii_bounded c). lia.
Qed.

(** A property of characters decided by a boolean holds of all of them when
    it computes to true on the 256. *)
Lemma ascii_all (P : ascii → bool) :
  forallb P all_ascii = true → ∀ c, P c = true.
Proof.
  intros H c. rewrite forallb_forall in H. apply H.
  apply list_elem_of_In, all_ascii_complete.
Qed.

(** [str.isspace] is true exactly on the code points of [blank_codes]. *)
Lemma isspace_table c : str.isspace c = is_blank c.
Proof.
  apply (bool_decide_eq_true_1 (str.isspace c = is_blank c)).
  revert c. apply (ascii_all (fun c => bool_decide (str.isspace c = is_blank c))).
  by vm_compute.
Qed.

(** [str.lower_char] adds 32 to the capitals and leaves the rest. *)
Lemma lower_char_table c :
  N_of_ascii (str.lower_char c)
  = if capital (N_of_ascii c) then (N_of_ascii c + 32)%N else N_of_ascii c.
Proof.
  apply (bool_decide_eq_true_1
           (N_of_ascii (str.lower_char c)
            = if capital (N_of_ascii c) then (N_of_ascii c + 32)%N else N_of_ascii c)).
  revert c.
  apply (ascii_all (fun c => bool_decide
           (N_of_ascii (str.lower_char c)
            = if capital (N_of_ascii c) then (N_of_ascii c + 32)%N else N_of_ascii c))).
  by vm_compute.
Qed.

Lemma same_letter_b_spec c d : same_letter_b c d = true ↔ same_letter c d.
Proof.
  unfold same_letter_b, same_letter.
  rewrite !orb_true_iff, !andb_true_iff, !bool_decide_eq_true. tauto.
Qed.

(** Two characters have the same lower-case form exactly when they are the
    same letter up to case: this is what [re.IGNORECASE] compares. *)
Lemma lower_char_same_letter c d :
  str.lower_char c = str.lower_char d ↔ same_letter c d.
Proof.
  rewrite <-same_letter_b_spec, <-(bool_decide_eq_true (str.lower_char c = _)).
  assert (H : bool_decide (str.lower_char c = str.lower_char d) = same_letter_b c d).
  { apply (bool_decide_eq_true_1
             (bool_decide (str.lower_char c = str.lower_char d) = same_letter_b c d)).
    revert d.
    apply (ascii_all (fun d => bool_decide
             (bool_decide (str.lower_char c = str.lower_char d) = same_letter_b c d))).
    revert c.
    apply (ascii_all (fun c => forallb (fun d => bool_decide
             (bool_decide (str.lower_char c = str.lower_char d) = same_letter_b c d))
             all_ascii)).
    by vm_compute. }
  by rewrite H.
Qed.

Lemma same_text_lower s t : same_text s t ↔ str.lower s = str.lower t.
Proof.
  split.
  - induction 1 as [|c d s t Hcd _ IH]; [done|].
    simpl. f_equal; [by apply lower_char_same_letter|done].
  - revert t. induction s as [|c s IH]; intros [|d t] H; simplify_eq/=.
    + constructor.
    + constructor; [by apply lower_char_same_letter|by apply IH].
Qed.

Lemma occurs_in_lower_form k t :
  occurs_in k t ↔
  ∃ pre mid post, t = pre +:+ mid +:+ post ∧ str.lower mid = str.lower k.
Proof. unfold occurs_in. by setoid_rewrite same_text_lower. Qed.

(** ** Escaped patterns compile to literals *)

Lemma special_not_alnum c : re.is_special c = true → re.isalnum c = false.
Proof. destruct c as [[] [] [] [] [] [] [] []]; vm_compute; congruence. Qed.

Lemma plain_is_literal c :
  re.is_special c = false →
  c ≠ "|"%char ∧ c ≠ "\"%char ∧ c ≠ "."%char ∧ re.beyond_fragment c = false.
Proof.
  destruct c as [[] [] [] [] [] [] [] []]; vm_compute; intros H;
    repeat split; congruence.
Qed.

Lemma push_all_cons l alt alts : push_all l (alt :: alts) = (l ++ alt) :: alts.
Proof. induction l as [|a l IH]; [done|]. simpl. by rewrite IH. Qed.

Lemma compile_escape k rest :
  re.compile (re.escape k +:+ rest) = push_all (literal k) <$> re.compile rest.
Proof.
  induction k as [|c k IH].
  - simpl. rewrite append_nil_l. by destruct (re.compile rest).
  - simpl. destruct (re.is_special c) eqn:E.
    + rewrite !append_cons. simpl.
      rewrite (special_not_alnum _ E), IH.
      by destruct (re.compile rest).
    + apply plain_is_literal in E as (?&?&?&E).
      rewrite append_cons. simpl.
      rewrite !decide_False, E, IH by done.
      by destruct (re.compile rest).
Qed.

Lemma compile_escape_one k : re.compile (re.escape k) = Some [literal k].
Proof.
  rewrite <-(append_nil_r (re.escape k)), compile_escape. simpl.
  by rewrite push_all_cons, app_nil_r.
Qed.

Lemma compile_any_pattern keywords :
  re.compile (any_pattern keywords) = Some (literals keywords).
Proof.
  unfold any_pattern. destruct keywords as [|k rest]; [done|].
  revert k. induction rest as [|k' rest IH]; intros k.
  - apply compile_escape_one.
  - change (re.compile (re.escape k +:+ "|" +:+ any_pattern (k' :: rest))
            = Some (literal k :: map literal (k' :: rest))).
    rewrite compile_escape, append_cons, append_nil_l. simpl re.compile at 1.
    unfold any_pattern. rewrite IH. simpl. by rewrite push_all_cons, app_nil_r.
Qed.

(** ** Searching for literals *)

Lemma match_here_literal k t :
  re.match_here true (literal k) t = true ↔
  ∃ mid post, t = mid +:+ post ∧ str.lower mid = str.lower k.
Proof.
  revert t. induction k as [|c k IH]; intros t; simpl.
  - split; [|done]. intros _. by exists "", t.
  - destruct t as [|d t].
    + split; [done|]. intros ([|??]&post&?&?); simplify_eq/=.
    + rewrite andb_true_iff, bool_decide_eq_true, IH. split.
      * intros (Hc&mid&post&->&Hm). exists (String d mid), post.
        simpl. by rewrite Hm, Hc.
      * intros ([|d' mid]&post&Ht&Hm); [done|].
        rewrite append_cons in Ht. simplify_eq/=.
        split; [done|]. by exists mid, post.
Qed.

Lemma search_spec ic r t :
  re.search ic r t = true ↔
  ∃ pre suf alt, t = pre +:+ suf ∧ alt ∈ r ∧ re.match_here ic alt suf = true.
Proof.
  induction t as [|d t IH]; simpl; rewrite orb_true_iff, existsb_exists;
    setoid_rewrite <-list_elem_of_In.
  - split.
    + intros [(alt&Hin&Hm)|?]; [|done]. by exists "", "", alt.
    + intros ([|??]&suf&alt&Ht&Hin&Hm); [|done].
      rewrite append_nil_l in Ht. subst suf. left. by exists alt.
  - rewrite IH. split.
    + intros [(alt&Hin&Hm)|(pre&suf&alt&->&Hin&Hm)].
      * by exists "", (String d t), alt.
      * by exists (String d pre), suf, alt.
    + intros ([|d' pre]&suf&alt&Ht&Hin&Hm).
      * rewrite append_nil_l in Ht. subst suf. left. by exists alt.
      * rewrite append_cons in Ht. simplify_eq/=.
        right. by exists pre, suf, alt.
Qed.

Lemma search_literal_iff keywords t :
  re.search true (map literal keywords) t = true ↔
  ∃ k, k ∈ keywords ∧ occurs_in k t.
Proof.
  rewrite search_spec. setoid_rewrite occurs_in_lower_form. split.
  - intros (pre&suf&alt&->&(k&->&Hk)%list_elem_of_fmap&Hm).
    apply match_here_literal in Hm as (mid&post&->&Hm).
    exists k. split; [done|]. by exists pre, mid, post.
  - intros (k&Hk&pre&mid&post&->&Hm).
    exists pre, (mid +:+ post), (literal k). split_and!; [done| |].
    + apply list_elem_of_fmap. by exists k.
    + apply match_here_literal. by exists mid, post.
Qed.

Lemma search_one_iff k t :
  re.search true [literal k] t = true ↔ occurs_in k t.
Proof.
  rewrite (search_literal_iff [k]). split.
  - by intros (k'&->%list_elem_of_singleton&?).
  - intros ?. exists k. by rewrite list_elem_of_singleton.
Qed.

Lemma search_empty_pattern t : re.search true [[]] t = true.
Proof. by destruct t. Qed.

(** ** The mask as a function of the rows *)

Lemma str_contains_escape column k :
  pd.str_contains (pd.astype_str column) (re.escape k) false false
  = Ok (map (fun c => re.search true [literal k] (pd.to_str c)) column).
Proof.
  unfold pd.str_contains, pd.astype_str.
  by rewrite compile_escape_one, map_map.
Qed.

Lemma mask_any keywords column :
  mask AnyKeyword keywords column
  = Ok (map (fun c => re.search true (literals keywords) (pd.to_str c)) column).
Proof.
  unfold mask, pd.str_contains, pd.astype_str.
  by rewrite compile_any_pattern, map_map.
Qed.

Lemma all_loop_spec column keywords m :
  length m = length column →
  all_loop (pd.astype_str column) keywords m
  = Ok (zip_with andb m
          (map (fun c => forallb (fun k => re.search true [literal k] (pd.to_str c)) keywords)
               column)).
Proof.
  revert m. induction keywords as [|k rest IH]; intros m Hlen; simpl.
  - f_equal. revert m Hlen. induction column as [|c column IHc]; intros [|b m] ?;
      simplify_eq/=; [done|]. by rewrite andb_true_r, <-IHc.
  - rewrite str_contains_escape. simpl. rewrite IH.
    + f_equal. unfold series_and. clear IH.
      revert m Hlen. induction column as [|c column IHc]; intros [|b m] ?;
        simplify_eq/=; [done|]. by rewrite IHc, andb_assoc.
    + unfold series_and. rewrite length_zip_with, length_map. lia.
Qed.

Lemma mask_all keywords column :
  mask AllKeywords keywords column
  = Ok (map (fun c => forallb (fun k => re.search true [literal k] (pd.to_str c)) keywords)
            column).
Proof.
  unfold mask. rewrite all_loop_spec by by rewrite length_replicate.
  f_equal. induction column as [|c column IH]; [done|].
  simpl. by rewrite IH.
Qed.

Lemma mask_length mode keywords column bs :
  mask mode keywords column = Ok bs → length bs = length column.
Proof.
  destruct mode; [rewrite mask_any|rewrite mask_all]; intros [= <-];
    by rewrite length_map.
Qed.

Lemma literals_elem keywords alt :
  keywords ≠ [] → alt ∈ literals keywords ↔ ∃ k, k ∈ keywords ∧ alt = literal k.
Proof.
  destruct keywords as [|k0 rest]; [done|]. intros _.
  unfold literals. rewrite list_elem_of_fmap.
  split; intros (k&?&?); by exists k.
Qed.

Lemma forallb_search_iff keywords t :
  forallb (fun k => re.search true [literal k] t) keywords = true ↔
  ∀ k, k ∈ keywords → occurs_in k t.
Proof.
  rewrite forallb_forall. setoid_rewrite <-list_elem_of_In.
  by setoid_rewrite search_one_iff.
Qed.

Lemma matched_map_le {A : Type} (f g : A → bool) (l : list A) :
  (∀ x, x ∈ l → f x = true → g x = true) →
  matched (map f l) ≤ matched (map g l).
Proof.
  unfold matched. induction l as [|x l IH]; intros H; [done|].
  assert (Hx : f x = true → g x = true) by (apply H; left).
  assert (IH' := IH (fun y Hy => H y (list_elem_of_further _ _ _ Hy))).
  simpl. rewrite !filter_cons.
  destruct (f x), (g x); repeat case_decide; simpl; try done; try lia.
Qed.

Lemma str_contains_escape_text descriptions k :
  pd.str_contains descriptions (re.escape k) false false
  = Ok (map (hit [literal k]) descriptions).
Proof. unfold pd.str_contains. by rewrite compile_escape_one. Qed.

Lemma text_mask_any keywords descriptions :
  text_mask AnyKeyword keywords descriptions
  = Ok (map (hit (literals keywords)) descriptions).
Proof. unfold text_mask, pd.str_contains. by rewrite compile_any_pattern. Qed.

Lemma all_loop_text descriptions keywords m :
  length m = length descriptions →
  all_loop descriptions keywords m
  = Ok (zip_with andb m
          (map (fun x => forallb (fun k => hit [literal k] x) keywords) descriptions)).
Proof.
  revert m. induction keywords as [|k rest IH]; intros m Hlen; simpl.
  - f_equal. revert m Hlen.
    induction descriptions as [|x descriptions IHd]; intros [|b m] ?;
      simplify_eq/=; [done|]. by rewrite andb_true_r, <-IHd.
  - rewrite str_contains_escape_text. simpl. rewrite IH.
    + f_equal. unfold series_and. clear IH.
      revert m Hlen. induction descriptions as [|x descriptions IHd]; intros [|b m] ?;
        simplify_eq/=; [done|]. by rewrite IHd, andb_assoc.
    + unfold series_and. rewrite length_zip_with, length_map. lia.
Qed.

Lemma text_mask_all keywords descriptions :
  text_mask AllKeywords keywords descriptions
  = Ok (map (fun x => forallb (fun k => hit [literal k] x) keywords) descriptions).
Proof.
  unfold text_mask. rewrite all_loop_text by by rewrite length_replicate.
  f_equal. induction descriptions as [|x descriptions IH]; [done|].
  simpl. by rewrite IH.
Qed.

(** Line 131 followed by lines 133-139. *)
Lemma mask_text_mask mode keywords column :
  mask mode keywords column = text_mask mode keywords (pd.astype_str column).
Proof.
  destruct mode; [done|]. unfold mask, text_mask, pd.astype_str.
  by rewrite length_map.
Qed.

(** A string cell keeps its text under [astype(str)]. *)
Lemma astype_str_string column i s :
  column !! i = Some (pd.CStr s) → pd.astype_str column !! i = Some (Some s).
Proof. intros H. unfold pd.astype_str. by rewrite list_lookup_fmap, H. Qed.

Lemma any_hit_text keywords t :
  re.search true (literals keywords) t = true ↔
  keywords = [] ∨ ∃ k, k ∈ keywords ∧ occurs_in k t.
Proof.
  destruct keywords as [|k0 rest].
  - simpl. rewrite search_empty_pattern. split; [by left|done].
  - unfold literals. rewrite search_literal_iff. split; [by right|].
    by intros [?|?].
Qed.

(** C3: in either mode the mask's entry for a text is decided by literal
    occurrence of the keywords in it, letters compared up to case and every
    other character, regex metacharacters included, compared as it is: with
    ANY some keyword occurs (the pattern of an empty keyword list matches
    every text), with ALL every keyword occurs; an entry without text never
    matches a keyword.  This holds of any text series, of the series
    [astype(str)] gives for a column, and so of every string cell. *)
Theorem mask_matches_literally (mode : match_mode) (keywords : list string)
    (descriptions : list (option string)) :
  (∃ bs, text_mask mode keywords descriptions = Ok bs ∧
     length bs = length descriptions ∧
     (∀ i t, descriptions !! i = Some (Some t) →
        (bs !! i = Some true ↔
         match mode with
         | AnyKeyword => keywords = [] ∨ ∃ k, k ∈ keywords ∧ occurs_in k t
         | AllKeywords => ∀ k, k ∈ keywords → occurs_in k t
         end)) ∧
     (∀ i, descriptions !! i = Some None → keywords ≠ [] → bs !! i = Some false)) ∧
  (∀ column, mask mode keywords column = text_mask mode keywords (pd.astype_str column)) ∧
  (∀ column i s, column !! i = Some (pd.CStr s) →
     ∃ bs, mask mode keywords column = Ok bs ∧
       (bs !! i = Some true ↔
        match mode with
        | AnyKeyword => keywords = [] ∨ ∃ k, k ∈ keywords ∧ occurs_in k s
        | AllKeywords => ∀ k, k ∈ keywords → occurs_in k s
        end)).
Proof.
  assert (Htext : ∀ d : list (option string),
    ∃ bs, text_mask mode keywords d = Ok bs ∧ length bs = length d ∧
      (∀ i t, d !! i = Some (Some t) →
         (bs !! i = Some true ↔
          match mode with
          | AnyKeyword => keywords = [] ∨ ∃ k, k ∈ keywords ∧ occurs_in k t
          | AllKeywords => ∀ k, k ∈ keywords → occurs_in k t
          end)) ∧
      (∀ i, d !! i = Some None → keywords ≠ [] → bs !! i = Some false)).
  { intros d. destruct mode; [rewrite text_mask_any|rewrite text_mask_all];
      eexists; (split; [done|]); (split; [by rewrite length_map|]); split.
    - intros i t Hi. rewrite list_lookup_fmap, Hi. simpl.
      rewrite <-any_hit_text. split; [by intros [= ->]|by intros ->].
    - intros i Hi _. by rewrite list_lookup_fmap, Hi.
    - intros i t Hi. rewrite list_lookup_fmap, Hi. simpl.
      rewrite <-forallb_search_iff. split; [by intros [= ->]|by intros ->].
    - intros i Hi Hne. rewrite list_lookup_fmap, Hi. simpl.
      by destruct keywords. }
  split_and!; [apply Htext|apply mask_text_mask|].
  intros column i s Hi. rewrite mask_text_mask.
  destruct (Htext (pd.astype_str column)) as (bs&Hbs&_&Hrow&_).
  exists bs. split; [done|]. apply Hrow. by apply astype_str_string.
Qed.

(** Case folding below 256: the keyword "école" (its first letter is code
    point 233) is found in "ÉCOLE" (code point 201), and "é" is not "e". *)
Example latin1_case :
  text_mask AnyKeyword [String "233" "cole"] [Some (String "201" "COLE"); Some "ECOLE"]
  = Ok [true; false].
Proof. reflexivity. Qed.

Example dot_is_literal_any :
  mask AnyKeyword ["a.b"] [pd.CStr "axb"; pd.CStr "xA.By"; pd.CStr "a.b"] = Ok [false; true; true].
Proof. reflexivity. Qed.

Example dot_is_literal_all :
  mask AllKeywords ["a.b"] [pd.CStr "axb"; pd.CStr "xA.By"; pd.CStr "a.b"] = Ok [false; true; true].
Proof. reflexivity. Qed.

Example unescaped_dot_matches_any_char :
  pd.str_contains [Some "axb"] "a.b" false false = Ok [true].
Proof. reflexivity. Qed.

Example case_insensitive :
  mask AnyKeyword ["Security"] [pd.CStr "SECURITY REVIEW"; pd.CStr "the security team"]
  = Ok [true; true].
Proof. reflexivity. Qed.

(** C10: on a single keyword the alternation built for ANY and the
    conjunction loop run for ALL give the same mask. *)
Theorem mask_singleton_modes_agree (k : string) (column : list pd.cell) :
  mask AnyKeyword [k] column = mask AllKeywords [k] column.
Proof.
  rewrite mask_any, mask_all. f_equal. apply map_ext. intros c.
  simpl. by rewrite andb_true_r.
Qed.

(** C5: with a keyword added anywhere to a non-empty keyword list, the ANY
    mask keeps at least as many rows and the ALL mask at most as many. *)
Theorem mask_monotone (column : list pd.cell) (K1 K2 : list string) (k : string) :
  K1 ++ K2 ≠ [] →
  ∃ any_before any_after all_before all_after,
    mask AnyKeyword (K1 ++ K2) column = Ok any_before ∧
    mask AnyKeyword (K1 ++ k :: K2) column = Ok any_after ∧
    mask AllKeywords (K1 ++ K2) column = Ok all_before ∧
    mask AllKeywords (K1 ++ k :: K2) column = Ok all_after ∧
    matched any_before ≤ matched any_after ∧
    matched all_after ≤ matched all_before.
Proof.
  intros Hne. rewrite !mask_any, !mask_all.
  do 4 eexists. split_and!; try done.
  - apply matched_map_le. intros c _.
    rewrite !search_spec. intros (pre&suf&alt&Ht&Hin&Hm).
    exists pre, suf, alt. split_and!; [done| |done].
    apply literals_elem in Hin as (k'&Hk'&->); [|done].
    apply literals_elem; [by destruct K1|].
    exists k'. split; [|done].
    rewrite elem_of_app, elem_of_cons. rewrite elem_of_app in Hk'. tauto.
  - apply matched_map_le. intros c _.
    rewrite !forallb_search_iff. intros H k' Hk'. apply H.
    rewrite elem_of_app, elem_of_cons. rewrite elem_of_app in Hk'. tauto.
Qed.

Lemma mask_monotone_witness :
  [] ++ ["security"] ≠ ([] : list string) ∧
  ∃ any_before any_after all_before all_after,
    mask AnyKeyword ([] ++ ["security"]) (pd.getitem_values stories 1) = Ok any_before ∧
    mask AnyKeyword ([] ++ "masking" :: ["security"]) (pd.getitem_values stories 1) = Ok any_after ∧
    mask AllKeywords ([] ++ ["security"]) (pd.getitem_values stories 1) = Ok all_before ∧
    mask AllKeywords ([] ++ "masking" :: ["security"]) (pd.getitem_values stories 1) = Ok all_after ∧
    matched any_before ≤ matched any_after ∧
    matched all_after ≤ matched all_before.
Proof.
  split; [discriminate|].
  apply (mask_monotone _ [] ["security"] "masking"). discriminate.
Defined.

Example empty_any_pattern_matches_everything :
  mask AnyKeyword [] [pd.CStr "Improve login speed"] = Ok [true].
Proof. reflexivity. Qed.

(** ** Cells that are not strings *)

Example numeric_cell_text : pd.to_str (pd.CInt 123) = "123".
Proof. reflexivity. Qed.

(** Under pandas 1.x/2.x a missing cell is searched as the text "nan". *)
Example missing_cell_text :
  pd.astype_str [pd.NaN] = [Some "nan"] ∧
  mask AnyKeyword ["na"] [pd.NaN] = Ok [true] ∧
  mask AnyKeyword ["security"] [pd.NaN] = Ok [false].
Proof. by repeat split. Qed.

(** C1, as stated, fails: a cell holding the number 123 is not a string, and
    its row is kept for the keyword "12" in both modes. *)
Lemma non_string_cell_can_match :
  mask AnyKeyword ["12"] [pd.CInt 123] = Ok [true] ∧
  mask AllKeywords ["12"] [pd.CInt 123] = Ok [true].
Proof. by split. Qed.

(** C1, amended: computing the mask never raises and gives one entry per
    row, for every column and for every text series.  The mask is computed
    on the series that [astype(str)] gives for the column: an entry that is
    missing there gets false for every keyword, and an entry with a text
    gets true for a keyword exactly when the keyword occurs in that text,
    up to case, and false otherwise.  A string cell keeps its own text; any
    other cell is searched through the text the coercion gives it. *)
Theorem mask_total_and_textual (mode : match_mode) (keywords : list string)
    (column : list pd.cell) (descriptions : list (option string)) (k : string) :
  (∃ bs, mask mode keywords column = Ok bs ∧ length bs = length column) ∧
  (∃ bs, text_mask mode keywords descriptions = Ok bs ∧
         length bs = length descriptions) ∧
  mask mode keywords column = text_mask mode keywords (pd.astype_str column) ∧
  (∀ i s, column !! i = Some (pd.CStr s) →
     pd.astype_str column !! i = Some (Some s)) ∧
  (∃ bs, text_mask mode [k] descriptions = Ok bs ∧
     ∀ i,
       (descriptions !! i = Some None → bs !! i = Some false) ∧
       (∀ t, descriptions !! i = Some (Some t) →
          (bs !! i = Some true ↔ occurs_in k t) ∧
          (bs !! i = Some false ↔ ¬ occurs_in k t))).
Proof.
  split_and!.
  - destruct mode; [rewrite mask_any|rewrite mask_all];
      eexists; (split; [done|by rewrite length_map]).
  - destruct mode; [rewrite text_mask_any|rewrite text_mask_all];
      eexists; (split; [done|by rewrite length_map]).
  - apply mask_text_mask.
  - intros i s. apply astype_str_string.
  - destruct mode; [rewrite text_mask_any|rewrite text_mask_all];
      eexists; (split; [done|]); intros i; rewrite list_lookup_fmap;
      (split; [by intros ->|]); intros t ->; simpl;
      rewrite ?andb_true_r, <-search_one_iff;
      destruct (re.search true [literal k] t);
      split; split; (done || congruence).
Qed.

Example mask_of_empty_column :
  mask AnyKeyword ["pii"] [] = Ok [] ∧ mask AllKeywords ["pii"] [] = Ok [].
Proof. by split. Qed.

(** What [na=False] does to an entry that is still missing in the text
    series. *)
Example missing_text_entry :
  text_mask AnyKeyword ["nan"] [None; Some "nan"] = Ok [false; true] ∧
  text_mask AllKeywords ["nan"] [None; Some "nan"] = Ok [false; true].
Proof. by split. Qed.

(** ** Column detection *)

Lemma get_loc_None x l : pd.get_loc x l = None ↔ x ∉ l.
Proof.
  induction l as [|y l IH]; simpl.
  - split; [intros _; apply not_elem_of_nil|done].
  - rewrite not_elem_of_cons. case_decide as E.
    + split; [done|]. by intros [? _].
    + destruct (pd.get_loc x l); simpl.
      * split; [done|]. intros [_ H]. by apply IH in H.
      * split; [|done]. intros _. split; [done|]. by apply IH.
Qed.

(** [get_loc] finds the first position of the label. *)
Lemma get_loc_Some x l i :
  pd.get_loc x l = Some i ↔ ∃ l1 l2, l = l1 ++ x :: l2 ∧ (x ∉ l1) ∧ i = length l1.
Proof.
  revert i. induction l as [|y l IH]; intros i; simpl.
  - split; [done|]. by intros ([|??]&?&?&_).
  - case_decide as E.
    + subst y. split.
      * intros [= <-]. exists [], l. split_and!; [done| |done]. apply not_elem_of_nil.
      * intros ([|z l1]&l2&Hl&Hn&->); [done|]. simplify_eq/=.
        exfalso. apply Hn. left.
    + destruct (pd.get_loc x l) as [j|] eqn:Hj; simpl.
      * split.
        -- intros [= <-]. destruct (IH j) as [IH1 _].
           destruct (IH1 eq_refl) as (l1&l2&->&?&->).
           exists (y :: l1), l2. split_and!; [done| |done].
           rewrite not_elem_of_cons. by split.
        -- intros ([|z l1]&l2&Hl&Hn&->); simplify_eq/=.
           apply not_elem_of_cons in Hn as [_ Hn].
           destruct (IH (length l1)) as [_ IH2].
           assert (Some j = Some (length l1)) as [= ->]; [|done].
           apply IH2. by exists l1, l2.
      * split; [done|]. intros ([|z l1]&l2&Hl&Hn&->); simplify_eq/=.
        apply get_loc_None in Hj. exfalso. apply Hj.
        rewrite elem_of_app, elem_of_cons. tauto.
Qed.

Lemma get_loc_lookup x l i : pd.get_loc x l = Some i → l !! i = Some x.
Proof.
  intros (l1&l2&->&_&->)%get_loc_Some.
  by rewrite lookup_app_r, Nat.sub_diag by lia.
Qed.

Lemma get_loc_is_Some x l : x ∈ l → is_Some (pd.get_loc x l).
Proof.
  intros Hx. destruct (pd.get_loc x l) eqn:E; [by eexists|].
  by apply get_loc_None in E.
Qed.

(** The loop returns the column found by the first candidate present in
    [cols_lower], or [None] when no candidate is. *)
Lemma detect_loop_spec columns candidates :
  (detect_column columns candidates = Ok None ∧
   Forall (fun a => a ∉ map str.lower columns) candidates)
  ∨ (∃ A1 a A2 C1 c C2,
       candidates = A1 ++ a :: A2 ∧ columns = C1 ++ c :: C2 ∧
       Forall (fun a' => a' ∉ map str.lower columns) A1 ∧
       str.lower c = a ∧ (a ∉ map str.lower C1) ∧
       detect_column columns candidates = Ok (Some c)).
Proof.
  unfold detect_column.
  induction candidates as [|a rest IH]; simpl.
  - left. by split.
  - case_bool_decide as Hin.
    + right. destruct (get_loc_is_Some _ _ Hin) as [i Hi]. unfold list_index.
      rewrite Hi. simpl.
      apply get_loc_Some in Hi as (L1&L2&HL&Hn&->).
      apply fmap_app_inv in HL as (C1&C'&->&HC'&->).
      symmetry in HC'. apply fmap_cons_inv in HC' as (c&C2&->&->&->).
      unfold list_item.
      rewrite lookup_app_r, length_map, Nat.sub_diag by (rewrite length_map; lia).
      simpl. exists [], (str.lower c), rest, C1, c, C2. by split_and!.
    + destruct IH as [[-> Hall]|(A1&a'&A2&C1&c&C2&->&->&Hall&<-&Hn&->)].
      * left. split; [done|]. by constructor.
      * right. exists (a :: A1), (str.lower c), A2, C1, c, C2.
        split_and!; try done. by constructor.
Qed.

Lemma not_in_lowered a columns c :
  a ∉ map str.lower columns → c ∈ columns → a ≠ str.lower c.
Proof.
  intros Hn Hc ->. apply Hn. apply list_elem_of_fmap. by exists c.
Qed.

(** C2, as stated, fails: the candidate "ID" and the column "id" are equal
    up to case, yet nothing is detected, since candidates are compared as
    given. *)
Lemma detect_column_upper_candidate :
  detect_column ["id"] ["ID"] = Ok None ∧
  ∃ a c, a ∈ ["ID"] ∧ c ∈ ["id"] ∧ str.lower a = str.lower c.
Proof.
  split; [reflexivity|].
  exists "ID", "id". split_and!; [left|left|reflexivity].
Qed.

(** C2, amended: [detect_column] never raises; it returns a member of the
    columns exactly when some candidate equals the lower-case form of some
    column (the columns are folded to lower case, the candidates are taken
    as they are), and [None] exactly when no candidate does. *)
Theorem detect_column_iff (columns candidates : list string) :
  (∃ r, detect_column columns candidates = Ok r) ∧
  (∀ c, detect_column columns candidates = Ok (Some c) → c ∈ columns) ∧
  ((∃ c, detect_column columns candidates = Ok (Some c)) ↔
   ∃ a c, a ∈ candidates ∧ c ∈ columns ∧ a = str.lower c) ∧
  (detect_column columns candidates = Ok None ↔
   ¬ ∃ a c, a ∈ candidates ∧ c ∈ columns ∧ a = str.lower c).
Proof.
  destruct (detect_loop_spec columns candidates)
    as [[Hd Hall]|(A1&a&A2&C1&c&C2&->&->&Hall&<-&Hn&Hd)]; rewrite Hd.
  - assert (Hno : ¬ ∃ a c, a ∈ candidates ∧ c ∈ columns ∧ a = str.lower c).
    { intros (a&c&Ha&Hc&Heq). rewrite Forall_forall in Hall.
      by apply (not_in_lowered a columns c (Hall a Ha) Hc). }
    split_and!; [by eexists|done| |done].
    split; [by intros [? ?]|done].
  - assert (Hyes : ∃ a c0, a ∈ A1 ++ str.lower c :: A2 ∧ c0 ∈ C1 ++ c :: C2
                           ∧ a = str.lower c0).
    { exists (str.lower c), c. rewrite !elem_of_app, !elem_of_cons. tauto. }
    split_and!; [by eexists| | |done].
    + intros c' [= <-]. rewrite elem_of_app, elem_of_cons. tauto.
    + split; [done|]. intros _. by exists c.
Qed.

(** C6, as stated, fails: the earliest candidate with a case-insensitive
    match is "ID" (it matches the column "id"), yet the column returned is
    "desc", found by the second candidate. *)
Lemma detect_column_skips_upper_candidate :
  detect_column ["id"; "desc"] ["ID"; "desc"] = Ok (Some "desc") ∧
  str.lower "ID" = str.lower "id" ∧
  str.lower "desc" ≠ str.lower "ID".
Proof. by split_and!. Qed.

(** C6, amended: for candidates written in lower case with at least one
    case-insensitive match, [detect_column] returns the column matched by
    the earliest such candidate, wherever it stands among the columns: it
    is the first column equal to that candidate up to case, and it is
    returned in its original casing. *)
Theorem detect_column_priority (columns candidates : list string) :
  Forall (fun a => str.lower a = a) candidates →
  (∃ a c, a ∈ candidates ∧ c ∈ columns ∧ str.lower a = str.lower c) →
  ∃ A1 a A2 C1 c C2,
    candidates = A1 ++ a :: A2 ∧ columns = C1 ++ c :: C2 ∧
    detect_column columns candidates = Ok (Some c) ∧
    str.lower a = str.lower c ∧
    (∀ a' c', a' ∈ A1 → c' ∈ columns → str.lower a' ≠ str.lower c') ∧
    (∀ c', c' ∈ C1 → str.lower c' ≠ str.lower a).
Proof.
  intros Hlow (a0&c0&Ha0&Hc0&Heq). rewrite Forall_forall in Hlow.
  destruct (detect_loop_spec columns candidates)
    as [[Hd Hall]|(A1&a&A2&C1&c&C2&->&->&Hall&<-&Hn&Hd)].
  - exfalso. rewrite Forall_forall in Hall.
    apply (not_in_lowered a0 columns c0 (Hall a0 Ha0) Hc0).
    by rewrite <-(Hlow a0 Ha0).
  - exists A1, (str.lower c), A2, C1, c, C2.
    split_and!; [done|done|done|apply lower_idemp| |].
    + intros a' c' Ha' Hc'. rewrite Forall_forall in Hall.
      rewrite (Hlow a') by (rewrite elem_of_app; tauto).
      by apply not_in_lowered with (C1 ++ c :: C2); [apply Hall|].
    + intros c' Hc' Heq'. apply Hn. rewrite lower_idemp in Heq'.
      rewrite <-Heq'. apply list_elem_of_fmap. by exists c'.
Qed.

Lemma detect_column_priority_witness :
  Forall (fun a => str.lower a = a) ["user story id"; "id"; "story id"] ∧
  (∃ a c, a ∈ ["user story id"; "id"; "story id"] ∧ c ∈ ["Story ID"; "Title"; "Id"]
          ∧ str.lower a = str.lower c) ∧
  ∃ A1 a A2 C1 c C2,
    ["user story id"; "id"; "story id"] = A1 ++ a :: A2 ∧
    ["Story ID"; "Title"; "Id"] = C1 ++ c :: C2 ∧
    detect_column ["Story ID"; "Title"; "Id"] ["user story id"; "id"; "story id"]
      = Ok (Some c) ∧
    str.lower a = str.lower c ∧
    (∀ a' c', a' ∈ A1 → c' ∈ ["Story ID"; "Title"; "Id"] → str.lower a' ≠ str.lower c') ∧
    (∀ c', c' ∈ C1 → str.lower c' ≠ str.lower a).
Proof.
  assert (H1 : Forall (fun a => str.lower a = a) ["user story id"; "id"; "story id"]).
  { repeat constructor. }
  assert (H2 : ∃ a c, a ∈ ["user story id"; "id"; "story id"]
                      ∧ c ∈ ["Story ID"; "Title"; "Id"] ∧ str.lower a = str.lower c).
  { exists "id", "Id". split_and!; [right; left|right; right; left|reflexivity]. }
  split; [exact H1|]. split; [exact H2|].
  exact (detect_column_priority ["Story ID"; "Title"; "Id"]
           ["user story id"; "id"; "story id"] H1 H2).
Defined.

Example detect_prefers_candidate_order :
  detect_column ["Story ID"; "Title"; "Id"] ["user story id"; "id"; "story id"]
  = Ok (Some "Id").
Proof. reflexivity. Qed.

(** ** Keywords *)

Lemma parse_keywords_filter text :
  parse_keywords text
  = filter (fun k => k ≠ "") (map str.strip (str.split "," text)).
Proof.
  unfold parse_keywords.
  induction (str.split "," text) as [|piece pieces IH]; [done|].
  simpl. rewrite filter_cons.
  destruct (str.strip piece); simpl; [exact IH|].
  f_equal. exact IH.
Qed.

Lemma split_pieces_no_sep sep s piece :
  piece ∈ str.split sep s → re.mem_char sep piece = false.
Proof.
  revert piece. induction s as [|c s IH]; intros piece; simpl.
  - by intros ->%list_elem_of_singleton.
  - case_decide as E.
    + intros [->|H]%elem_of_cons; [done|]. by apply IH.
    + destruct (str.split sep s) as [|p ps] eqn:Hs.
      * intros ->%list_elem_of_singleton. simpl.
        rewrite bool_decide_eq_false_2 by congruence. done.
      * intros [->|H]%elem_of_cons.
        -- simpl. rewrite bool_decide_eq_false_2 by congruence.
           apply IH. left.
        -- apply IH. by right.
Qed.

Lemma lstrip_keeps_chars c s :
  re.mem_char c (str.lstrip s) = true → re.mem_char c s = true.
Proof.
  induction s as [|d s IH]; [done|]. simpl.
  destruct (str.isspace d); [|done]. intros H. rewrite (IH H). apply orb_true_r.
Qed.

Lemma rstrip_keeps_chars c s :
  re.mem_char c (str.rstrip s) = true → re.mem_char c s = true.
Proof.
  induction s as [|d s IH]; [done|]. simpl.
  destruct (str.rstrip s) as [|e r].
  - destruct (str.isspace d); [done|]. simpl.
    rewrite orb_false_r. intros ->. done.
  - simpl in *. intros [->|H]%orb_true_iff; [done|].
    rewrite (IH H). apply orb_true_r.
Qed.

Lemma strip_no_new_chars c s :
  re.mem_char c s = false → re.mem_char c (str.strip s) = false.
Proof.
  intros Hs. destruct (re.mem_char c (str.strip s)) eqn:E; [|done].
  apply rstrip_keeps_chars, lstrip_keeps_chars in E. congruence.
Qed.

Lemma lstrip_starts s : starts_blank (str.lstrip s) = false.
Proof.
  induction s as [|c s IH]; [done|]. simpl.
  destruct (str.isspace c) eqn:E; [done|].
  unfold starts_blank. by rewrite <-isspace_table.
Qed.

Lemma rstrip_starts s : starts_blank s = false → starts_blank (str.rstrip s) = false.
Proof.
  destruct s as [|c s]; [done|]. unfold starts_blank at 1.
  rewrite <-isspace_table. intros Hc. simpl.
  destruct (str.rstrip s); rewrite ?Hc;
    unfold starts_blank; by rewrite <-isspace_table.
Qed.

Lemma rstrip_ends s : ends_blank (str.rstrip s) = false.
Proof.
  induction s as [|c s IH]; [done|]. simpl.
  destruct (str.rstrip s) as [|d r] eqn:E.
  - destruct (str.isspace c) eqn:Ec; [done|].
    cbn [ends_blank]. by rewrite <-isspace_table.
  - exact IH.
Qed.





Lemma split_nonempty sep s : str.split sep s ≠ [].
Proof.
  destruct s as [|c s]; [done|]. simpl.
  case_decide; [done|]. by destruct (str.split sep s).
Qed.

Lemma join_split sep s : str.join (String sep "") (str.split sep s) = s.
Proof.
  induction s as [|c s IH]; [done|]. simpl str.split.
  pose proof (split_nonempty sep s) as Hne.
  destruct (str.split sep s) as [|p ps] eqn:Hs; [done|].
  case_decide as E.
  - subst c.
    change (str.join (String sep "") ("" :: p :: ps))
      with ("" +:+ String sep "" +:+ str.join (String sep "") (p :: ps)).
    by rewrite IH.
  - destruct ps as [|q ps].
    + simpl in *. by rewrite IH.
    + change (str.join (String sep "") (String c p :: q :: ps))
        with (String c p +:+ String sep "" +:+ str.join (String sep "") (q :: ps)).
      rewrite append_cons. f_equal. exact IH.
Qed.

Lemma lstrip_decompose s : ∃ l, s = l +:+ str.lstrip s ∧ blanks l = true.
Proof.
  induction s as [|c s (l&Hl&Hb)]; [by exists ""|]. simpl.
  destruct (str.isspace c) eqn:E.
  - exists (String c l). rewrite append_cons, <-Hl. split; [done|].
    simpl. by rewrite <-isspace_table, E.
  - by exists "".
Qed.

Lemma rstrip_decompose s : ∃ r, s = str.rstrip s +:+ r ∧ blanks r = true.
Proof.
  induction s as [|c s (r&Hr&Hb)]; [by exists ""|]. simpl.
  destruct (str.rstrip s) as [|d s'] eqn:E.
  - rewrite append_nil_l in Hr. subst r.
    destruct (str.isspace c) eqn:Ec.
    + exists (String c s). split; [done|]. simpl. by rewrite <-isspace_table, Ec.
    + exists s. by rewrite append_cons.
  - exists r. rewrite append_cons. by rewrite <-Hr.
Qed.

(** [strip] removes blanks, and only blanks, from both ends. *)
Lemma strip_decompose s :
  ∃ l r, s = l +:+ str.strip s +:+ r ∧ blanks l = true ∧ blanks r = true ∧
         starts_blank (str.strip s) = false ∧ ends_blank (str.strip s) = false.
Proof.
  destruct (lstrip_decompose s) as (l&Hl&Hbl).
  destruct (rstrip_decompose (str.lstrip s)) as (r&Hr&Hbr).
  exists l, r. unfold str.strip. split_and!; [|done|done| |].
  - by rewrite <-Hr.
  - apply rstrip_starts, lstrip_starts.
  - apply rstrip_ends.
Qed.

(** C8: the keywords are the pieces of the text between its commas (the
    pieces hold no comma and, joined by commas, give the text back), each
    stripped of the blanks at its two ends and of nothing else, those that
    are empty after stripping dropped; when none is left the run stops with
    one warning on the page, and allocates nothing: no mask, no projection,
    no export. *)
Theorem no_keywords_stops (combined_df : nat) (desc_col : string)
    (retain_cols : list string) (keyword_text : string) (mode : match_mode)
    (σ : store) :
  parse_keywords keyword_text
    = filter (fun k => k ≠ "") (map str.strip (str.split "," keyword_text)) ∧
  str.join "," (str.split "," keyword_text) = keyword_text ∧
  (∀ piece, piece ∈ str.split "," keyword_text →
     re.mem_char "," piece = false ∧
     ∃ l r, piece = l +:+ str.strip piece +:+ r ∧
            blanks l = true ∧ blanks r = true ∧
            starts_blank (str.strip piece) = false ∧
            ends_blank (str.strip piece) = false) ∧
  (parse_keywords keyword_text = [] →
   ∃ msg,
     filter_stories combined_df desc_col retain_cols keyword_text mode σ
     = (Stop, {| heap := heap σ; page := page σ ++ [warning msg] |})).
Proof.
  split_and!; [apply parse_keywords_filter|apply join_split| |].
  { intros piece Hpiece. split; [by eapply split_pieces_no_sep|].
    apply strip_decompose. }
  intros Hnone. unfold filter_stories.
  destruct (str.truthy (str.strip keyword_text)); simpl.
  - rewrite Hnone. simpl. by eexists.
  - by eexists.
Qed.

Lemma no_keywords_stops_witness :
  parse_keywords " , ," = [] ∧
  ∃ msg,
    filter_stories 0 "desc" ["id"] " , ," AnyKeyword (initial stories)
    = (Stop, {| heap := heap (initial stories);
                page := page (initial stories) ++ [warning msg] |}).
Proof.
  split; [reflexivity|].
  exact (proj2 (proj2 (proj2
           (no_keywords_stops 0 "desc" ["id"] " , ," AnyKeyword (initial stories))))
           eq_refl).
Defined.

Example no_break_space_is_stripped :
  parse_keywords (String "160" "pii" +:+ String "160" ", x") = ["pii"; "x"].
Proof. reflexivity. Qed.

Example no_break_space_only_warning :
  filter_stories 0 "desc" ["id"] (String "160" "") AnyKeyword (initial stories)
  = (Stop, {| heap := [Frame stories];
              page := [warning "Please enter at least one keyword."] |}).
Proof. reflexivity. Qed.

Example blank_text_warning :
  filter_stories 0 "desc" ["id"] "   " AllKeywords (initial stories)
  = (Stop, {| heap := [Frame stories];
              page := [warning "Please enter at least one keyword."] |}).
Proof. reflexivity. Qed.

Example only_commas_warning :
  filter_stories 0 "desc" ["id"] " , ," AllKeywords (initial stories)
  = (Stop, {| heap := [Frame stories];
              page := [warning "No valid keywords parsed."] |}).
Proof. reflexivity. Qed.

(** ** Projection *)

Lemma true_positions_cons m mask :
  true_positions (m :: mask)
  = (if m then [0] else []) ++ map S (true_positions mask).
Proof.
  unfold true_positions. simpl length. rewrite <-cons_seq, filter_cons.
  rewrite <-fmap_S_seq.
  assert (filter (fun i => (m :: mask) !! i = Some true) (S <$> seq 0 (length mask))
          = S <$> filter (fun i => mask !! i = Some true) (seq 0 (length mask))) as ->.
  { induction (seq 0 (length mask)) as [|i l IH]; [done|].
    rewrite fmap_cons, !filter_cons, IH. simpl.
    by repeat case_decide. }
  simpl. destruct m; by case_decide.
Qed.

Lemma true_positions_elem mask i :
  i ∈ true_positions mask ↔ mask !! i = Some true.
Proof.
  unfold true_positions. rewrite list_elem_of_filter, elem_of_seq.
  split; [by intros [? _]|]. intros H. split; [done|].
  apply lookup_lt_Some in H. lia.
Qed.

Lemma sorted_filter (P : nat → Prop) `{!∀ i, Decision (P i)} (l : list nat) :
  StronglySorted lt l → StronglySorted lt (filter P l).
Proof.
  induction 1 as [|i l Hs IH Hall]; [constructor|].
  rewrite filter_cons. case_decide; [|done].
  constructor; [done|]. rewrite Forall_forall in Hall |- *.
  intros j Hj. apply Hall. by apply list_elem_of_filter in Hj as [_ ?].
Qed.

Lemma true_positions_sorted mask : StronglySorted lt (true_positions mask).
Proof.
  unfold true_positions. apply sorted_filter.
  generalize 0. induction (length mask) as [|n IH]; intros s; simpl.
  - constructor.
  - constructor; [apply IH|]. apply Forall_forall. intros j Hj.
    apply elem_of_seq in Hj. lia.
Qed.

(** The rows [select] keeps are the rows at the true positions, in order. *)
Lemma select_true_positions {A : Type} (mask : list bool) (l : list A) :
  length mask = length l →
  Forall2 (fun x i => l !! i = Some x) (pd.select mask l) (true_positions mask).
Proof.
  revert l. induction mask as [|m mask IH]; intros [|x l] Hlen; simplify_eq/=.
  - constructor.
  - rewrite true_positions_cons.
    assert (Forall2 (fun y i => (x :: l) !! i = Some y) (pd.select mask l)
              (map S (true_positions mask))) as Hrest.
    { apply Forall2_fmap_r. simpl. by apply IH. }
    destruct m; simpl; [by constructor|done].
Qed.

Lemma get_locs_ok labels cols :
  (∀ l, l ∈ labels → l ∈ cols) →
  ∃ js, pd.get_locs labels cols = Ok js ∧
        Forall2 (fun l j => pd.get_loc l cols = Some j) labels js.
Proof.
  induction labels as [|l labels IH]; intros Hin; simpl.
  - exists []. by split.
  - destruct (get_loc_is_Some l cols) as [j Hj]; [apply Hin; left|].
    destruct IH as (js&Hjs&Hall); [intros ??; apply Hin; by right|].
    rewrite Hj, Hjs. simpl. exists (j :: js). split; [done|]. by constructor.
Qed.

(** C7: for a well-formed table, a mask with one entry per row and retained
    columns that all occur in the table, [loc] returns a table whose columns
    are the retained columns in the order given and whose rows are the rows
    at the mask's true positions, in increasing position: cell [p] of output
    row [n] is the cell of the [n]-th kept row under the [p]-th retained
    column. *)
Theorem loc_projects (df : pd.DataFrame) (mask : list bool) (labels : list string) :
  pd.well_formed df →
  length mask = length (pd.rows df) →
  (∀ l, l ∈ labels → l ∈ pd.columns df) →
  ∃ out,
    pd.loc df mask labels = Ok out ∧
    pd.columns out = labels ∧
    StronglySorted lt (true_positions mask) ∧
    (∀ i, i ∈ true_positions mask ↔ mask !! i = Some true) ∧
    length (pd.rows out) = length (true_positions mask) ∧
    ∀ n i, true_positions mask !! n = Some i →
      ∃ row out_row,
        pd.rows df !! i = Some row ∧ pd.rows out !! n = Some out_row ∧
        length out_row = length labels ∧
        ∀ p label, labels !! p = Some label →
          ∃ j v, pd.columns df !! j = Some label ∧ row !! j = Some v ∧
                 out_row !! p = Some v.
Proof.
  intros [_ Hwf] Hlen Hin. unfold pd.loc.
  rewrite decide_True by done.
  destruct (get_locs_ok labels (pd.columns df) Hin) as (js&->&Hjs). simpl.
  pose proof (select_true_positions mask (pd.rows df) Hlen) as Hsel.
  eexists. split; [done|]. simpl.
  split_and!; [done|apply true_positions_sorted|apply true_positions_elem| |].
  - rewrite length_map. by eapply Forall2_length.
  - intros n i Hn.
    destruct (Forall2_lookup_r _ _ _ _ _ Hsel Hn) as (row&Hrow&Hi).
    exists row, (map (pd.cell_at row) js).
    split_and!; [done|by rewrite list_lookup_fmap, Hrow| |].
    + rewrite length_map. symmetry. by eapply Forall2_length.
    + intros p label Hp.
      destruct (Forall2_lookup_l _ _ _ _ _ Hjs Hp) as (j&Hj&Hloc).
      apply get_loc_lookup in Hloc.
      rewrite Forall_forall in Hwf.
      assert (Hr : length row = length (pd.columns df)).
      { apply Hwf. by eapply list_elem_of_lookup_2. }
      destruct (lookup_lt_is_Some_2 row j) as [v Hv].
      { rewrite Hr. by eapply lookup_lt_Some. }
      exists j, v. split_and!; [done|done|].
      rewrite list_lookup_fmap, Hj. simpl. unfold pd.cell_at. by rewrite Hv.
Qed.

Lemma stories_well_formed : pd.well_formed stories.
Proof.
  split.
  - apply NoDup_cons. split; [by intros ?%list_elem_of_singleton|].
    apply NoDup_singleton.
  - by repeat constructor.
Qed.

Lemma loc_projects_witness :
  ∃ out,
    pd.loc stories [true; false; true] ["desc"; "id"] = Ok out ∧
    pd.columns out = ["desc"; "id"] ∧
    StronglySorted lt (true_positions [true; false; true]) ∧
    (∀ i, i ∈ true_positions [true; false; true] ↔ [true; false; true] !! i = Some true) ∧
    length (pd.rows out) = length (true_positions [true; false; true]) ∧
    ∀ n i, true_positions [true; false; true] !! n = Some i →
      ∃ row out_row,
        pd.rows stories !! i = Some row ∧ pd.rows out !! n = Some out_row ∧
        length out_row = length ["desc"; "id"] ∧
        ∀ p label, ["desc"; "id"] !! p = Some label →
          ∃ j v, pd.columns stories !! j = Some label ∧ row !! j = Some v ∧
                 out_row !! p = Some v.
Proof.
  apply (loc_projects stories [true; false; true] ["desc"; "id"]).
  - exact stories_well_formed.
  - reflexivity.
  - intros l Hl. apply elem_of_cons in Hl as [->|Hl]; [right; left|].
    apply list_elem_of_singleton in Hl as ->. left.
Defined.

Example loc_scenario :
  pd.loc stories [true; false; true] ["desc"; "id"]
  = Ok {| pd.columns := ["desc"; "id"];
          pd.rows := [ [pd.CStr "Add masking for PII"; pd.CStr "US1"];
                       [pd.CStr "Audit privacy and security logs"; pd.CStr "US3"] ] |}.
Proof. reflexivity. Qed.

Example loc_wrong_length :
  pd.loc stories [true; false] ["id"] = Raise IndexingError.
Proof. reflexivity. Qed.

Example loc_unknown_column :
  pd.loc stories [true; false; true] ["id"; "owner"] = Raise (KeyError "owner").
Proof. reflexivity. Qed.

(** ** Combining tables *)

Lemma get_loc_app_l c seen extra i :
  pd.get_loc c seen = Some i → pd.get_loc c (seen ++ extra) = Some i.
Proof.
  intros (l1&l2&->&Hn&->)%get_loc_Some. apply get_loc_Some.
  exists l1, (l2 ++ extra). by rewrite <-app_assoc.
Qed.

Lemma get_loc_lt c seen i : pd.get_loc c seen = Some i → i < length seen.
Proof. intros H%get_loc_lookup. by eapply lookup_lt_Some. Qed.

Lemma get_loc_fresh x seen :
  x ∉ seen → pd.get_loc x (seen ++ [x]) = Some (length seen).
Proof. intros Hn. apply get_loc_Some. by exists seen, []. Qed.

Lemma ordered_union_step acc seen x :
  ordered_union acc seen →
  ordered_union (if bool_decide (x ∈ acc) then acc else acc ++ [x]) (seen ++ [x]).
Proof.
  intros (Hnd&Hel&Hord). case_bool_decide as Hx.
  - split_and!; [done| |].
    + intros c. rewrite elem_of_app, list_elem_of_singleton, <-Hel.
      split; [tauto|]. by intros [?| ->].
    + intros i j c d Hi Hj Hlt.
      destruct (Hord i j c d Hi Hj Hlt) as (pi&pj&?&?&?).
      exists pi, pj. split_and!; [by apply get_loc_app_l..|done].
  - assert (Hxs : x ∉ seen) by by rewrite <-Hel.
    split_and!.
    + apply NoDup_app. split_and!; [done| |apply NoDup_singleton].
      intros c Hc ->%list_elem_of_singleton. done.
    + intros c. by rewrite !elem_of_app, Hel.
    + intros i j c d Hi Hj Hlt.
      destruct (decide (j < length acc)) as [Hj'|Hj'].
      * rewrite lookup_app_l in Hi, Hj by lia.
        destruct (Hord i j c d Hi Hj Hlt) as (pi&pj&?&?&?).
        exists pi, pj. split_and!; [by apply get_loc_app_l..|done].
      * assert (Hjlen : j < length (acc ++ [x])) by by eapply lookup_lt_Some.
        rewrite length_app in Hjlen. simpl in Hjlen.
        assert (j = length acc) as -> by lia.
        rewrite lookup_app_l in Hi by lia.
        rewrite lookup_app_r, Nat.sub_diag in Hj by lia. simplify_eq/=.
        assert (Hc : c ∈ seen) by (apply Hel; by eapply list_elem_of_lookup_2).
        destruct (get_loc_is_Some _ _ Hc) as [pi Hpi].
        exists pi, (length seen).
        split_and!; [by apply get_loc_app_l|by apply get_loc_fresh|].
        by eapply get_loc_lt.
Qed.

Lemma ordered_union_columns acc seen cols :
  ordered_union acc seen →
  ordered_union (pd.union_columns acc cols) (seen ++ cols).
Proof.
  unfold pd.union_columns.
  revert acc seen. induction cols as [|x cols IH]; intros acc seen H; simpl.
  - by rewrite app_nil_r.
  - rewrite (cons_middle x seen cols), app_assoc. apply IH.
    by apply ordered_union_step.
Qed.

Lemma ordered_union_frames acc seen dfs :
  ordered_union acc seen →
  ordered_union (foldl (fun a df => pd.union_columns a (pd.columns df)) acc dfs)
                (seen ++ flat_map pd.columns dfs).
Proof.
  revert acc seen. induction dfs as [|df dfs IH]; intros acc seen H; simpl.
  - by rewrite app_nil_r.
  - rewrite app_assoc. apply IH. by apply ordered_union_columns.
Qed.

Lemma ordered_union_nil : ordered_union [] [].
Proof.
  split_and!; [constructor|done|]. intros i j c d Hi. by rewrite lookup_nil in Hi.
Qed.

Lemma flat_map_length {A B : Type} (f : A → list B) (l : list A) :
  length (flat_map f l) = sum_list (map (fun x => length (f x)) l).
Proof.
  induction l as [|x l IH]; [done|]. simpl. by rewrite length_app, IH.
Qed.

Lemma flat_map_lookup {A B : Type} (f : A → list B) before x after q y :
  f x !! q = Some y →
  flat_map f (before ++ x :: after) !! (length (flat_map f before) + q) = Some y.
Proof.
  intros Hq. rewrite flat_map_app. simpl.
  rewrite lookup_app_r by lia.
  replace (length (flat_map f before) + q - length (flat_map f before)) with q by lia.
  by apply lookup_app_l_Some.
Qed.

Lemma reindex_lookup cols new_cols row p c :
  new_cols !! p = Some c →
  pd.reindex cols new_cols row !! p
  = Some (match pd.get_loc c cols with
          | Some j => pd.cell_at row j
          | None => pd.NaN
          end).
Proof. intros Hp. unfold pd.reindex. by rewrite list_lookup_fmap, Hp. Qed.

Lemma concat_value dfs :
  dfs ≠ [] →
  pd.concat dfs
  = Ok {| pd.columns := foldl (fun a df => pd.union_columns a (pd.columns df)) [] dfs;
          pd.rows := flat_map (fun df =>
                       map (pd.reindex (pd.columns df)
                              (foldl (fun a df => pd.union_columns a (pd.columns df)) [] dfs))
                           (pd.rows df)) dfs |}.
Proof. by destruct dfs. Qed.

(** C4: combining a non-empty sequence of well-formed tables gives a table
    with as many rows as the inputs together, whose columns are the union of
    the input columns in order of first appearance, and whose rows are the
    input rows in input order: row [q] of a table stands after all rows of
    the tables before it, with its own cells under its own columns and the
    missing value under every other column. *)
Theorem concat_combines (dfs : list pd.DataFrame) :
  dfs ≠ [] →
  Forall pd.well_formed dfs →
  ∃ T,
    pd.concat dfs = Ok T ∧
    length (pd.rows T) = row_count dfs ∧
    ordered_union (pd.columns T) (flat_map pd.columns dfs) ∧
    ∀ before df after q row,
      dfs = before ++ df :: after → pd.rows df !! q = Some row →
      ∃ out_row,
        pd.rows T !! (row_count before + q) = Some out_row ∧
        length out_row = length (pd.columns T) ∧
        ∀ p c, pd.columns T !! p = Some c →
          (c ∈ pd.columns df →
           ∃ j v, pd.columns df !! j = Some c ∧ row !! j = Some v ∧
                  out_row !! p = Some v) ∧
          (c ∉ pd.columns df → out_row !! p = Some pd.NaN).
Proof.
  intros Hne Hwf. rewrite (concat_value dfs Hne).
  set (cols := foldl (fun a df => pd.union_columns a (pd.columns df)) [] dfs).
  eexists. split; [done|]. cbn [pd.rows pd.columns].
  split_and!.
  - rewrite flat_map_length. unfold row_count. f_equal.
    apply map_ext. intros df. by rewrite length_map.
  - apply (ordered_union_frames [] [] dfs ordered_union_nil).
  - intros before df after q row Hsplit Hrow.
    exists (pd.reindex (pd.columns df) cols row). split_and!.
    + rewrite Hsplit. unfold row_count. rewrite <-(flat_map_length pd.rows).
      replace (length (flat_map pd.rows before))
        with (length (flat_map (fun df => map (pd.reindex (pd.columns df) cols)
                                             (pd.rows df)) before)).
      * apply flat_map_lookup. by rewrite list_lookup_fmap, Hrow.
      * rewrite !flat_map_length. f_equal. apply map_ext. intros ?.
        by rewrite length_map.
    + unfold pd.reindex. by rewrite length_map.
    + intros p c Hp. rewrite (reindex_lookup _ _ _ _ _ Hp). split.
      * intros Hc. destruct (get_loc_is_Some _ _ Hc) as [j Hj]. rewrite Hj.
        assert (Hdf : pd.well_formed df).
        { rewrite Forall_forall in Hwf. apply Hwf. rewrite Hsplit.
          rewrite elem_of_app, elem_of_cons. tauto. }
        destruct Hdf as [_ Hfull]. rewrite Forall_forall in Hfull.
        assert (Hlen : length row = length (pd.columns df)).
        { apply Hfull. by eapply list_elem_of_lookup_2. }
        destruct (lookup_lt_is_Some_2 row j) as [v Hv].
        { rewrite Hlen. by eapply get_loc_lt. }
        exists j, v. split_and!; [by apply get_loc_lookup|done|].
        unfold pd.cell_at. by rewrite Hv.
      * intros Hc. apply get_loc_None in Hc. by rewrite Hc.
Qed.

Lemma backlog_well_formed : pd.well_formed backlog.
Proof.
  split.
  - apply NoDup_cons. split; [by intros ?%list_elem_of_singleton|].
    apply NoDup_singleton.
  - by repeat constructor.
Qed.

Lemma concat_combines_witness :
  [stories; backlog] ≠ [] ∧
  Forall pd.well_formed [stories; backlog] ∧
  ∃ T,
    pd.concat [stories; backlog] = Ok T ∧
    length (pd.rows T) = row_count [stories; backlog] ∧
    ordered_union (pd.columns T) (flat_map pd.columns [stories; backlog]) ∧
    ∀ before df after q row,
      [stories; backlog] = before ++ df :: after → pd.rows df !! q = Some row →
      ∃ out_row,
        pd.rows T !! (row_count before + q) = Some out_row ∧
        length out_row = length (pd.columns T) ∧
        ∀ p c, pd.columns T !! p = Some c →
          (c ∈ pd.columns df →
           ∃ j v, pd.columns df !! j = Some c ∧ row !! j = Some v ∧
                  out_row !! p = Some v) ∧
          (c ∉ pd.columns df → out_row !! p = Some pd.NaN).
Proof.
  assert (H1 : [stories; backlog] ≠ []) by discriminate.
  assert (H2 : Forall pd.well_formed [stories; backlog]).
  { constructor; [apply stories_well_formed|].
    constructor; [apply backlog_well_formed|constructor]. }
  split; [exact H1|]. split; [exact H2|].
  exact (concat_combines [stories; backlog] H1 H2).
Defined.

Example concat_scenario :
  pd.concat [stories; backlog]
  = Ok {| pd.columns := ["id"; "desc"; "owner"];
          pd.rows := [ [pd.CStr "US1"; pd.CStr "Add masking for PII"; pd.NaN];
                       [pd.CStr "US2"; pd.CStr "Improve login speed"; pd.NaN];
                       [pd.CStr "US3"; pd.CStr "Audit privacy and security logs"; pd.NaN];
                       [pd.CStr "US4"; pd.NaN; pd.CStr "ana"] ] |}.
Proof. reflexivity. Qed.

Example concat_single : pd.concat [stories] = Ok stories.
Proof. reflexivity. Qed.

Example concat_nothing : pd.concat [] = Raise ValueError.
Proof. reflexivity. Qed.

(** ** The run over the store *)

Lemma bind_ok {A B : Type} (m : M A) (f : A → M B) σ a σ' :
  m σ = (Ok a, σ') → (m ≫= f) σ = f a σ'.
Proof. intros H. unfold mbind, M_bind. by rewrite H. Qed.

Lemma bind_raise {A B : Type} (m : M A) (f : A → M B) σ e σ' :
  m σ = (Raise e, σ') → (m ≫= f) σ = (Raise e, σ').
Proof. intros H. unfold mbind, M_bind. by rewrite H. Qed.

Lemma read_frame_run l σ d :
  heap σ !! l = Some (Frame d) → read_frame l σ = (Ok d, σ).
Proof. intros H. unfold read_frame, read, mbind, M_bind. by rewrite H. Qed.

Lemma read_series_run l σ v :
  heap σ !! l = Some (Series v) → read_series l σ = (Ok v, σ).
Proof. intros H. unfold read_series, read, mbind, M_bind. by rewrite H. Qed.

Lemma read_str_run l σ v :
  heap σ !! l = Some (StrSeries v) → read_str l σ = (Ok v, σ).
Proof. intros H. unfold read_str, read, mbind, M_bind. by rewrite H. Qed.

Lemma read_bool_run l σ v :
  heap σ !! l = Some (BoolSeries v) → read_bool l σ = (Ok v, σ).
Proof. intros H. unfold read_bool, read, mbind, M_bind. by rewrite H. Qed.

Lemma insert_middle {A : Type} (l1 l2 : list A) (x y : A) :
  <[length l1 := y]> (l1 ++ x :: l2) = l1 ++ y :: l2.
Proof. by rewrite insert_app_r_alt, Nat.sub_diag by lia. Qed.

(** The AND loop updates the mask object in place and leaves every object
    allocated before the mask as it was. *)
Lemma all_loop_run_spec column keywords H descr pg :
  H !! descr = Some (StrSeries (pd.astype_str column)) →
  ∀ m rest,
    length m = length column →
    ∃ bs rest',
      all_loop (pd.astype_str column) keywords m = Ok bs ∧
      all_loop_run descr (length H) keywords
        {| heap := H ++ BoolSeries m :: rest; page := pg |}
      = (Ok tt, {| heap := H ++ BoolSeries bs :: rest'; page := pg |}).
Proof.
  intros Hd. induction keywords as [|k keywords IH]; intros m rest Hm.
  - by exists m, rest.
  - set (other := map (fun c => re.search true [literal k] (pd.to_str c)) column).
    destruct (IH (series_and m other) (rest ++ [BoolSeries other])) as (bs&rest'&Hbs&Hrun).
    { unfold series_and, other. rewrite length_zip_with, length_map. lia. }
    exists bs, rest'. split.
    { simpl. by rewrite str_contains_escape. }
    simpl all_loop_run.
    set (σ := {| heap := H ++ BoolSeries m :: rest; page := pg |}).
    set (σ1 := {| heap := (H ++ BoolSeries m :: rest) ++ [BoolSeries other]; page := pg |}).
    assert (Hc : series_str_contains descr (re.escape k) σ
                 = (Ok (length (H ++ BoolSeries m :: rest)), σ1)).
    { unfold series_str_contains.
      rewrite (bind_ok _ _ σ (pd.astype_str column) σ)
        by (apply read_str_run; simpl; by apply lookup_app_l_Some).
      unfold lift, mbind, M_bind. by rewrite str_contains_escape. }
    rewrite (bind_ok _ _ _ _ _ Hc).
    assert (Hi : series_iand (length H) (length (H ++ BoolSeries m :: rest)) σ1
                 = (Ok tt, {| heap := H ++ BoolSeries (series_and m other)
                                        :: (rest ++ [BoolSeries other]);
                              page := pg |})).
    { unfold series_iand.
      rewrite (bind_ok _ _ σ1 m σ1).
      2:{ apply read_bool_run. simpl. rewrite <-app_assoc. apply list_lookup_middle. done. }
      rewrite (bind_ok _ _ σ1 other σ1).
      2:{ apply read_bool_run. simpl. by apply list_lookup_middle. }
      unfold write, σ1. cbn [heap page].
      by rewrite <-app_assoc, <-app_comm_cons, insert_middle. }
    rewrite (bind_ok _ _ _ _ _ Hi). exact Hrun.
Qed.

Lemma getitem_length df label column :
  pd.getitem df label = Ok column → length column = length (pd.rows df).
Proof.
  unfold pd.getitem. destruct (pd.get_loc label (pd.columns df)); [|done].
  intros [= <-]. unfold pd.getitem_values. by rewrite length_map.
Qed.

(** Lines 133-139 allocate the mask first, at the next free reference, and
    leave the objects already in the store as they were. *)
Lemma compute_mask_run combined descr mode keywords σ df column :
  heap σ !! combined = Some (Frame df) →
  heap σ !! descr = Some (StrSeries (pd.astype_str column)) →
  length column = length (pd.rows df) →
  ∃ bs extra,
    mask mode keywords column = Ok bs ∧
    compute_mask combined descr mode keywords σ
    = (Ok (length (heap σ)), {| heap := heap σ ++ BoolSeries bs :: extra; page := page σ |}).
Proof.
  intros Hdf Hd Hlen. destruct σ as [H pg]. cbn [heap page] in *.
  destruct mode; unfold compute_mask.
  - eexists _, []. split; [apply mask_any|].
    unfold series_str_contains.
    rewrite (bind_ok _ _ _ _ _ (read_str_run descr {| heap := H; page := pg |} _ Hd)).
    unfold lift, mbind, M_bind.
    change (pd.str_contains (pd.astype_str column) (any_pattern keywords) false false)
      with (mask AnyKeyword keywords column).
    by rewrite mask_any.
  - destruct (all_loop_run_spec column keywords H descr pg Hd
                (replicate (length column) true) [])
      as (bs&rest&Hbs&Hrun); [by rewrite length_replicate|].
    exists bs, rest. split; [done|].
    assert (Ht : series_true combined {| heap := H; page := pg |}
                 = (Ok (length H),
                    {| heap := H ++ [BoolSeries (replicate (length column) true)];
                       page := pg |})).
    { unfold series_true.
      rewrite (bind_ok _ _ _ _ _
                 (read_frame_run combined {| heap := H; page := pg |} _ Hdf)).
      unfold alloc. cbn [heap page]. by rewrite Hlen. }
    rewrite (bind_ok _ _ _ _ _ Ht).
    rewrite (bind_ok _ _ _ _ _ Hrun). done.
Qed.

Lemma df_getitem_run df label σ d v :
  heap σ !! df = Some (Frame d) → pd.getitem d label = Ok v →
  df_getitem df label σ
  = (Ok (length (heap σ)), {| heap := heap σ ++ [Series v]; page := page σ |}).
Proof.
  intros Hd Hv. unfold df_getitem.
  rewrite (bind_ok _ _ _ _ _ (read_frame_run df σ d Hd)).
  unfold lift, mbind, M_bind. by rewrite Hv.
Qed.

Lemma df_getitem_raise df label σ d e :
  heap σ !! df = Some (Frame d) → pd.getitem d label = Raise e →
  df_getitem df label σ = (Raise e, σ).
Proof.
  intros Hd Hv. unfold df_getitem.
  rewrite (bind_ok _ _ _ _ _ (read_frame_run df σ d Hd)).
  unfold lift, mbind, M_bind. by rewrite Hv.
Qed.

Lemma series_astype_str_run l σ v :
  heap σ !! l = Some (Series v) →
  series_astype_str l σ
  = (Ok (length (heap σ)),
     {| heap := heap σ ++ [StrSeries (pd.astype_str v)]; page := page σ |}).
Proof.
  intros Hv. unfold series_astype_str.
  by rewrite (bind_ok _ _ _ _ _ (read_series_run l σ v Hv)).
Qed.

Lemma df_loc_run df m labels σ d bs :
  heap σ !! df = Some (Frame d) → heap σ !! m = Some (BoolSeries bs) →
  df_loc df m labels σ
  = match pd.loc d bs labels with
    | Ok out => (Ok (length (heap σ)),
                 {| heap := heap σ ++ [Frame out]; page := page σ |})
    | Raise e => (Raise e, σ)
    | Stop => (Stop, σ)
    end.
Proof.
  intros Hd Hm. unfold df_loc.
  rewrite (bind_ok _ _ _ _ _ (read_frame_run df σ d Hd)).
  rewrite (bind_ok _ _ _ _ _ (read_bool_run m σ bs Hm)).
  unfold lift, mbind, M_bind. by destruct (pd.loc d bs labels).
Qed.

Lemma df_copy_run df σ d :
  heap σ !! df = Some (Frame d) →
  df_copy df σ
  = (Ok (length (heap σ)), {| heap := heap σ ++ [Frame d]; page := page σ |}).
Proof.
  intros Hd. unfold df_copy.
  by rewrite (bind_ok _ _ _ _ _ (read_frame_run df σ d Hd)).
Qed.

Lemma getitem_not_stop df label : pd.getitem df label ≠ Stop.
Proof. unfold pd.getitem. by destruct (pd.get_loc label (pd.columns df)). Qed.

Lemma get_locs_not_stop labels cols : pd.get_locs labels cols ≠ Stop.
Proof.
  induction labels as [|l labels IH]; [done|]. simpl.
  destruct (pd.get_loc l cols); [|done].
  by destruct (pd.get_locs labels cols).
Qed.

Lemma loc_not_stop df m labels : pd.loc df m labels ≠ Stop.
Proof.
  unfold pd.loc. case_decide; [|done].
  pose proof (get_locs_not_stop labels (pd.columns df)).
  by destruct (pd.get_locs labels (pd.columns df)).
Qed.

(** A text that strips to nothing has no keyword: the first guard of the
    run is a special case of the second. *)
Lemma rstrip_empty s : str.rstrip s = "" → all_blank s = true.
Proof.
  induction s as [|c s IH]; [done|]. simpl.
  destruct (str.rstrip s); [|done].
  destruct (str.isspace c); [|done]. intros _. by apply IH.
Qed.

Lemma lstrip_blank s : all_blank (str.lstrip s) = true → all_blank s = true.
Proof.
  induction s as [|c s IH]; [done|]. simpl.
  destruct (str.isspace c) eqn:E; [done|]. simpl. by rewrite E.
Qed.

Lemma blank_split s : all_blank s = true → str.split "," s = [s].
Proof.
  induction s as [|c s IH]; [done|]. simpl.
  intros [Hc Hs]%andb_true_iff. case_decide as E; [by subst c|].
  by rewrite (IH Hs).
Qed.

Lemma blank_text_no_keywords text :
  str.truthy (str.strip text) = false → parse_keywords text = [].
Proof.
  intros Ht. unfold parse_keywords.
  rewrite blank_split.
  - simpl. by rewrite Ht.
  - apply lstrip_blank, rstrip_empty. unfold str.strip in Ht.
    by destruct (str.rstrip (str.lstrip text)).
Qed.

(** The whole run: which objects it adds, what it shows and what it
    returns. *)
Lemma filter_stories_run combined desc_col retain_cols keyword_text mode σ df :
  heap σ !! combined = Some (Frame df) →
  ∃ extra shown,
    snd (filter_stories combined desc_col retain_cols keyword_text mode σ)
    = {| heap := heap σ ++ extra; page := page σ ++ shown |} ∧
    match fst (filter_stories combined desc_col retain_cols keyword_text mode σ) with
    | Ok filtered =>
        ∃ earlier out,
          extra = earlier ++ [Frame out] ∧
          filtered = length (heap σ ++ earlier) ∧
          parse_keywords keyword_text ≠ [] ∧
          filtered_value df desc_col retain_cols keyword_text mode = Ok out
    | Raise e =>
        parse_keywords keyword_text ≠ [] ∧
        filtered_value df desc_col retain_cols keyword_text mode = Raise e
    | Stop => parse_keywords keyword_text = []
    end.
Proof.
  intros Hdf. unfold filter_stories.
  destruct (str.truthy (str.strip keyword_text)) eqn:Htruthy; cbn [negb].
  2:{ exists [], [warning "Please enter at least one keyword."].
      split; [by rewrite app_nil_r|]. simpl.
      by apply blank_text_no_keywords. }
  case_bool_decide as HK.
  { exists [], [warning "No valid keywords parsed."].
    split; [by rewrite app_nil_r|done]. }
  destruct σ as [H pg]. cbn [heap page] in *.
  destruct (pd.getitem df desc_col) as [column|e|] eqn:Hg.
  3:{ by apply getitem_not_stop in Hg. }
  2:{ rewrite (bind_raise _ _ _ _ _
                 (df_getitem_raise combined desc_col {| heap := H; page := pg |} df e Hdf Hg)).
      exists [], []. rewrite !app_nil_r. split; [done|].
      cbn [fst]. split; [done|]. unfold filtered_value. by rewrite Hg. }
  rewrite (bind_ok _ _ _ _ _
             (df_getitem_run combined desc_col {| heap := H; page := pg |} df column Hdf Hg)).
  cbn [heap page].
  rewrite (bind_ok _ _ _ _ _
             (series_astype_str_run (length H)
                {| heap := H ++ [Series column]; page := pg |} column
                (list_lookup_middle H [] (Series column) (length H) eq_refl))).
  cbn [heap page].
  set (H2 := (H ++ [Series column]) ++ [StrSeries (pd.astype_str column)]).
  assert (Hdf2 : H2 !! combined = Some (Frame df)).
  { unfold H2. by do 2 apply lookup_app_l_Some. }
  destruct (compute_mask_run combined (length (H ++ [Series column])) mode
              (parse_keywords keyword_text) {| heap := H2; page := pg |} df column)
    as (bs&extra&Hmask&Hrun); cbn [heap page].
  { done. }
  { by apply list_lookup_middle. }
  { by eapply getitem_length. }
  rewrite (bind_ok _ _ _ _ _ Hrun). cbn [heap page] in *.
  set (H3 := H2 ++ BoolSeries bs :: extra).
  assert (Hloc := df_loc_run combined (length H2) retain_cols
                    {| heap := H3; page := pg |} df bs).
  cbn [heap page] in Hloc.
  specialize (Hloc (lookup_app_l_Some _ _ _ _ Hdf2)
                   (list_lookup_middle H2 extra (BoolSeries bs) (length H2) eq_refl)).
  assert (Hval : filtered_value df desc_col retain_cols keyword_text mode
                 = pd.loc df bs retain_cols).
  { unfold filtered_value. rewrite Hg. simpl. by rewrite Hmask. }
  rewrite Hval.
  pose proof (loc_not_stop df bs retain_cols) as Hns.
  destruct (pd.loc df bs retain_cols) as [out|e|]; [| |done].
  2:{ rewrite (bind_raise _ _ _ _ _ Hloc). cbn [fst snd].
      exists ([Series column; StrSeries (pd.astype_str column)] ++ BoolSeries bs :: extra), [].
      split; [|done]. f_equal; [|by rewrite app_nil_r].
      unfold H3, H2. by rewrite <-!app_assoc. }
  rewrite (bind_ok _ _ _ _ _ Hloc).
  rewrite (bind_ok _ _ _ _ _
             (df_copy_run (length H3) {| heap := H3 ++ [Frame out]; page := pg |} out
                (list_lookup_middle H3 [] (Frame out) (length H3) eq_refl))).
  cbn [heap page].
  rewrite (bind_ok _ _ _ _ _
             (read_frame_run (length (H3 ++ [Frame out]))
                {| heap := (H3 ++ [Frame out]) ++ [Frame out]; page := pg |} out
                (list_lookup_middle (H3 ++ [Frame out]) [] (Frame out) _ eq_refl))).
  unfold mbind, M_bind, emit, mret, M_ret. cbn [heap page fst snd].
  exists (([Series column; StrSeries (pd.astype_str column)] ++ BoolSeries bs :: extra
           ++ [Frame out]) ++ [Frame out]),
         [subheader (results_title (length (pd.rows out))); dataframe out;
          download_button (pd.to_excel out "FilteredStories")
            "filtered_user_stories.xlsx" xlsx_mime].
  split.
  - f_equal; [|by rewrite <-!app_assoc].
    unfold H3, H2. rewrite <-?app_assoc. simpl. by rewrite <-?app_assoc.
  - eexists _, out. split; [done|]. split; [|done].
    unfold H3, H2. f_equal. rewrite <-?app_assoc. simpl. by rewrite <-?app_assoc.
Qed.

(** C9: a run of the filter leaves the combined table, and every other object
    that existed before, as it was; the table it returns is a new object, not
    the combined table, holding the projection of the masked rows; a second
    run builds yet another object with the same contents. *)
Theorem filter_leaves_combined (combined_df : nat) (desc_col : string)
    (retain_cols : list string) (keyword_text : string) (mode : match_mode)
    (σ : store) (df : pd.DataFrame) :
  heap σ !! combined_df = Some (Frame df) →
  let run := filter_stories combined_df desc_col retain_cols keyword_text mode in
  (∀ l o, heap σ !! l = Some o → heap (run σ).2 !! l = Some o) ∧
  heap (run σ).2 !! combined_df = Some (Frame df) ∧
  ∀ filtered, (run σ).1 = Ok filtered →
    length (heap σ) ≤ filtered ∧ filtered ≠ combined_df ∧
    ∃ out,
      filtered_value df desc_col retain_cols keyword_text mode = Ok out ∧
      heap (run σ).2 !! filtered = Some (Frame out) ∧
      ∃ filtered',
        (run (run σ).2).1 = Ok filtered' ∧ filtered' ≠ filtered ∧
        heap (run (run σ).2).2 !! filtered' = Some (Frame out) ∧
        heap (run (run σ).2).2 !! filtered = Some (Frame out) ∧
        heap (run (run σ).2).2 !! combined_df = Some (Frame df).
Proof.
  intros Hdf run.
  destruct (filter_stories_run combined_df desc_col retain_cols keyword_text mode σ df Hdf)
    as (extra&shown&Hsnd&Hfst).
  fold run in Hsnd, Hfst.
  assert (Hkeep : ∀ l o, heap σ !! l = Some o → heap (run σ).2 !! l = Some o).
  { intros l o Hl. rewrite Hsnd. cbn [heap]. by apply lookup_app_l_Some. }
  split; [done|]. split; [by apply Hkeep|].
  intros filtered Hok. rewrite Hok in Hfst.
  destruct Hfst as (earlier&out&->&->&HK&Hval).
  assert (Hnew : heap (run σ).2 !! length (heap σ ++ earlier) = Some (Frame out)).
  { rewrite Hsnd. cbn [heap]. rewrite app_assoc. by apply list_lookup_middle. }
  assert (Hlt : combined_df < length (heap σ)) by by eapply lookup_lt_Some.
  rewrite length_app.
  split; [lia|]. split; [lia|].
  exists out. rewrite <-length_app. split_and!; [done..|].
  destruct (filter_stories_run combined_df desc_col retain_cols keyword_text mode
              (run σ).2 df (Hkeep _ _ Hdf))
    as (extra'&shown'&Hsnd'&Hfst').
  fold run in Hsnd', Hfst'.
  destruct (run (run σ).2).1 as [filtered'|e|]; [|by rewrite Hval in Hfst'; destruct Hfst'|done].
  destruct Hfst' as (earlier'&out'&->&->&_&Hval').
  rewrite Hval in Hval'. injection Hval' as <-.
  exists (length (heap (run σ).2 ++ earlier')).
  assert (Hlen : length (heap σ ++ earlier) < length (heap (run σ).2)).
  { by eapply lookup_lt_Some. }
  split_and!; [done| | | |].
  - rewrite length_app. lia.
  - rewrite Hsnd'. cbn [heap]. rewrite app_assoc. by apply list_lookup_middle.
  - rewrite Hsnd'. cbn [heap]. by apply lookup_app_l_Some.
  - rewrite Hsnd'. cbn [heap]. apply lookup_app_l_Some. by apply Hkeep.
Qed.

Lemma filter_leaves_combined_witness :
  heap (initial stories) !! 0 = Some (Frame stories) ∧
  let run := filter_stories 0 "desc" ["id"] "security, privacy" AllKeywords in
  (∀ l o, heap (initial stories) !! l = Some o → heap (run (initial stories)).2 !! l = Some o) ∧
  heap (run (initial stories)).2 !! 0 = Some (Frame stories) ∧
  ∀ filtered, (run (initial stories)).1 = Ok filtered →
    length (heap (initial stories)) ≤ filtered ∧ filtered ≠ 0 ∧
    ∃ out,
      filtered_value stories "desc" ["id"] "security, privacy" AllKeywords = Ok out ∧
      heap (run (initial stories)).2 !! filtered = Some (Frame out) ∧
      ∃ filtered',
        (run (run (initial stories)).2).1 = Ok filtered' ∧ filtered' ≠ filtered ∧
        heap (run (run (initial stories)).2).2 !! filtered' = Some (Frame out) ∧
        heap (run (run (initial stories)).2).2 !! filtered = Some (Frame out) ∧
        heap (run (run (initial stories)).2).2 !! 0 = Some (Frame stories).
Proof.
  split; [reflexivity|].
  exact (filter_leaves_combined 0 "desc" ["id"] "security, privacy" AllKeywords
           (initial stories) stories eq_refl).
Defined.

Example scenario_all_run :
  filter_stories 0 "desc" ["id"] "security, privacy" AllKeywords (initial stories)
  = (Ok 7,
     {| heap := [ Frame stories;
                  Series [pd.CStr "Add masking for PII"; pd.CStr "Improve login speed";
                          pd.CStr "Audit privacy and security logs"];
                  StrSeries [Some "Add masking for PII"; Some "Improve login speed";
                             Some "Audit privacy and security logs"];
                  BoolSeries [false; false; true];
                  BoolSeries [false; false; true];
                  BoolSeries [false; false; true];
                  Frame {| pd.columns := ["id"]; pd.rows := [[pd.CStr "US3"]] |};
                  Frame {| pd.columns := ["id"]; pd.rows := [[pd.CStr "US3"]] |} ];
        page := [ subheader "Results (1 stories found)";
                  dataframe {| pd.columns := ["id"]; pd.rows := [[pd.CStr "US3"]] |};
                  download_button
                    {| pd.sheet_name := "FilteredStories"; pd.header := ["id"];
                       pd.body := [[pd.CStr "US3"]] |}
                    "filtered_user_stories.xlsx" xlsx_mime ] |}).
Proof. vm_compute. reflexivity. Qed.

Example scenario_masking :
  filtered_value stories "desc" ["id"] "masking" AnyKeyword
  = Ok {| pd.columns := ["id"]; pd.rows := [[pd.CStr "US1"]] |}.
Proof. reflexivity. Qed.

(** * Further properties of the script *)

(** ** The mask as a set operation on keywords *)

Lemma any_hit_iff keywords t :
  re.search true (literals keywords) t = true ↔
  keywords = [] ∨ ∃ k, k ∈ keywords ∧ occurs_in k t.
Proof.
  destruct keywords as [|k0 rest].
  - simpl. rewrite search_empty_pattern. split; [by left|done].
  - unfold literals. rewrite search_literal_iff. split; [by right|].
    by intros [?|?].
Qed.

Lemma bool_ext (a b : bool) : (a = true ↔ b = true) → a = b.
Proof. destruct a, b; intros [H1 H2]; try done; [by rewrite H1|by rewrite H2]. Qed.

(** X1 (extra): the mask depends only on which keywords are given, not on
    their order or on repetitions: two keyword lists with the same members
    give the same mask in either mode. *)
Theorem mask_keyword_set (mode : match_mode) (K K' : list string)
    (column : list pd.cell) :
  (∀ k, k ∈ K ↔ k ∈ K') →
  mask mode K column = mask mode K' column.
Proof.
  intros Hsame. destruct mode; rewrite ?mask_any, ?mask_all; f_equal;
    apply map_ext; intros c; apply bool_ext.
  - rewrite !any_hit_iff. split.
    + intros [->|(k&Hk&Ho)].
      * left. destruct K' as [|k' ?]; [done|].
        exfalso. eapply not_elem_of_nil, Hsame. left.
      * right. exists k. split; [by apply Hsame|done].
    + intros [->|(k&Hk&Ho)].
      * left. destruct K as [|k' ?]; [done|].
        exfalso. eapply not_elem_of_nil, Hsame. left.
      * right. exists k. split; [by apply Hsame|done].
  - rewrite !forallb_search_iff. split; intros H k Hk; apply H; by apply Hsame.
Qed.

Lemma mask_keyword_set_witness :
  (∀ k, k ∈ ["privacy"; "security"; "privacy"] ↔ k ∈ ["security"; "privacy"]) ∧
  mask AllKeywords ["privacy"; "security"; "privacy"] (pd.getitem_values stories 1)
  = mask AllKeywords ["security"; "privacy"] (pd.getitem_values stories 1).
Proof.
  assert (H : ∀ k, k ∈ ["privacy"; "security"; "privacy"] ↔ k ∈ ["security"; "privacy"]).
  { intros k. rewrite !elem_of_cons. pose proof (not_elem_of_nil k). tauto. }
  split; [exact H|].
  exact (mask_keyword_set AllKeywords _ _ (pd.getitem_values stories 1) H).
Defined.

(** X3 (extra): for a non-empty keyword list, every row the ALL mask keeps
    is kept by the ANY mask too. *)
Theorem all_mask_within_any_mask (keywords : list string) (column : list pd.cell) :
  keywords ≠ [] →
  ∃ any_bs all_bs,
    mask AnyKeyword keywords column = Ok any_bs ∧
    mask AllKeywords keywords column = Ok all_bs ∧
    ∀ i, all_bs !! i = Some true → any_bs !! i = Some true.
Proof.
  intros Hne. rewrite mask_any, mask_all. do 2 eexists. split_and!; [done..|].
  intros i. rewrite !list_lookup_fmap.
  destruct (column !! i) as [c|]; [|done]. simpl. intros [= H]. f_equal.
  apply any_hit_iff. right.
  destruct keywords as [|k rest]; [done|]. exists k. split; [left|].
  rewrite forallb_search_iff in H. apply H. left.
Qed.

Lemma all_mask_within_any_mask_witness :
  ["audit"; "pii"] ≠ [] ∧
  ∃ any_bs all_bs,
    mask AnyKeyword ["audit"; "pii"] (pd.getitem_values stories 1) = Ok any_bs ∧
    mask AllKeywords ["audit"; "pii"] (pd.getitem_values stories 1) = Ok all_bs ∧
    ∀ i, all_bs !! i = Some true → any_bs !! i = Some true.
Proof.
  split; [discriminate|].
  apply (all_mask_within_any_mask ["audit"; "pii"]). discriminate.
Defined.

Lemma map_zip_with_same {A : Type} (f g h : A → bool) (op : bool → bool → bool)
    (l : list A) :
  (∀ x, f x = op (g x) (h x)) →
  map f l = zip_with op (map g l) (map h l).
Proof.
  intros H. induction l as [|x l IH]; [done|]. simpl. by rewrite H, IH.
Qed.

(** X4 (extra): masks compose over keyword lists.  The ALL mask of two lists
    put together is the row-wise conjunction of their ALL masks; for two
    non-empty lists the ANY mask is the row-wise disjunction of their ANY
    masks. *)
Theorem mask_of_appended_keywords (K1 K2 : list string) (column : list pd.cell) :
  K1 ≠ [] → K2 ≠ [] →
  ∃ any1 any2 all1 all2,
    mask AnyKeyword K1 column = Ok any1 ∧ mask AnyKeyword K2 column = Ok any2 ∧
    mask AllKeywords K1 column = Ok all1 ∧ mask AllKeywords K2 column = Ok all2 ∧
    mask AnyKeyword (K1 ++ K2) column = Ok (zip_with orb any1 any2) ∧
    mask AllKeywords (K1 ++ K2) column = Ok (zip_with andb all1 all2).
Proof.
  intros H1 H2. rewrite !mask_any, !mask_all. do 4 eexists.
  split_and!; [done..| |]; f_equal; apply map_zip_with_same; intros c.
  - apply bool_ext. rewrite orb_true_iff, !any_hit_iff. split.
    + intros [?|(k&[Hk|Hk]%elem_of_app&Ho)]; [by destruct K1|left|right];
        right; by exists k.
    + intros [[?|(k&Hk&Ho)]|[?|(k&Hk&Ho)]]; try done;
        right; exists k; (split; [|done]); rewrite elem_of_app; tauto.
  - by rewrite forallb_app.
Qed.

Lemma mask_of_appended_keywords_witness :
  ["masking"] ≠ [] ∧ ["audit"; "login"] ≠ [] ∧
  ∃ any1 any2 all1 all2,
    mask AnyKeyword ["masking"] (pd.getitem_values stories 1) = Ok any1 ∧
    mask AnyKeyword ["audit"; "login"] (pd.getitem_values stories 1) = Ok any2 ∧
    mask AllKeywords ["masking"] (pd.getitem_values stories 1) = Ok all1 ∧
    mask AllKeywords ["audit"; "login"] (pd.getitem_values stories 1) = Ok all2 ∧
    mask AnyKeyword (["masking"] ++ ["audit"; "login"]) (pd.getitem_values stories 1)
      = Ok (zip_with orb any1 any2) ∧
    mask AllKeywords (["masking"] ++ ["audit"; "login"]) (pd.getitem_values stories 1)
      = Ok (zip_with andb all1 all2).
Proof.
  split; [discriminate|]. split; [discriminate|].
  apply (mask_of_appended_keywords ["masking"] ["audit"; "login"]); discriminate.
Defined.

(** ** What [parse_keywords] yields *)

(** X5 (extra): every keyword the text is parsed into is non-empty, holds
    no comma and has no blank at either end; parsing never yields an empty
    or padded keyword. *)
Theorem parse_keywords_clean (keyword_text : string) :
  Forall clean_keyword (parse_keywords keyword_text).
Proof.
  rewrite parse_keywords_filter. apply Forall_forall. intros k.
  rewrite list_elem_of_filter, list_elem_of_fmap.
  intros (Hne&piece&->&Hpiece). unfold clean_keyword. split_and!; [done| | |].
  - apply strip_no_new_chars. by eapply split_pieces_no_sep.
  - apply rstrip_starts, lstrip_starts.
  - apply rstrip_ends.
Qed.







(** ** Column detection and the preselected columns *)

Lemma map_lower_idemp columns :
  map str.lower (map str.lower columns) = map str.lower columns.
Proof. rewrite map_map. apply map_ext. intros c. apply lower_idemp. Qed.

(** X7 (extra): detection does not depend on the case of the column names:
    on the lower-cased columns it finds the same column, lower-cased. *)
Theorem detect_column_lowered_columns (columns candidates : list string) :
  detect_column (map str.lower columns) candidates
  = detect_column columns candidates
    ≫= fun found : option string => Ok (option_map str.lower found).
Proof.
  unfold detect_column. rewrite map_lower_idemp.
  induction candidates as [|a rest IH]; [done|]. simpl.
  case_bool_decide as Hin; [|exact IH].
  destruct (get_loc_is_Some _ _ Hin) as [i Hi]. unfold list_index. rewrite Hi. simpl.
  apply get_loc_lookup in Hi. unfold list_item.
  rewrite list_lookup_fmap in Hi |- *.
  destruct (columns !! i) as [c|]; [done|]. done.
Qed.

Lemma get_loc_first c C1 C2 :
  c ∉ C1 → pd.get_loc c (C1 ++ c :: C2) = Some (length C1).
Proof. intros Hn. apply get_loc_Some. by exists C1, C2. Qed.

(** What [default_index] computes, for candidates all non-empty. *)
Lemma default_index_spec columns candidates fallback :
  Forall (fun a => a ≠ "") candidates →
  (Forall (fun a => a ∉ map str.lower columns) candidates ∧
   default_index columns candidates fallback = Ok fallback)
  ∨ (∃ C1 c C2,
       columns = C1 ++ c :: C2 ∧ str.lower c ∈ candidates ∧
       default_index columns candidates fallback = Ok (length C1)).
Proof.
  intros Hne. unfold default_index.
  destruct (detect_loop_spec columns candidates)
    as [[Hd Hall]|(A1&a&A2&C1&c&C2&->&->&Hall&<-&Hn&Hd)]; rewrite Hd; simpl.
  - by left.
  - right. exists C1, c, C2.
    assert (Hin : str.lower c ∈ A1 ++ str.lower c :: A2).
    { rewrite elem_of_app, elem_of_cons. tauto. }
    split_and!; [done|done|].
    assert (Hc : str.truthy c = true).
    { rewrite Forall_forall in Hne. specialize (Hne _ Hin). by destruct c. }
    rewrite Hc. unfold list_index. rewrite get_loc_first; [done|].
    intros Hc1. apply Hn, list_elem_of_fmap. by exists c.
Qed.

Lemma id_candidates_nonempty : Forall (fun a => a ≠ "") id_candidates.
Proof. by repeat constructor. Qed.

Lemma desc_candidates_nonempty : Forall (fun a => a ≠ "") desc_candidates.
Proof. by repeat constructor. Qed.

Lemma alias_absent columns candidates :
  Forall (fun a => a ∉ map str.lower columns) candidates →
  ¬ ∃ c, c ∈ columns ∧ str.lower c ∈ candidates.
Proof.
  rewrite Forall_forall. intros Hall (c&Hc&Hl).
  apply (Hall _ Hl), list_elem_of_fmap. by exists c.
Qed.

(** X8 (extra): for a table whose column labels are strings and which has
    at least one column, the index preselected for the ID column is a valid
    position: that of a column whose lower-case form is an ID alias, or 0
    when no column has such a name. *)
Theorem id_index_valid (columns : list string) :
  ∃ i, id_index columns = Ok i ∧
       (columns ≠ [] → i < length columns) ∧
       ((∃ c, columns !! i = Some c ∧ str.lower c ∈ id_candidates)
        ∨ (i = 0 ∧ ¬ ∃ c, c ∈ columns ∧ str.lower c ∈ id_candidates)).
Proof.
  unfold id_index.
  destruct (default_index_spec columns id_candidates 0 id_candidates_nonempty)
    as [[Hall ->]|(C1&c&C2&->&Hc&->)].
  - exists 0. split_and!; [done| |].
    + destruct columns; [done|]. simpl. lia.
    + right. split; [done|]. by apply alias_absent.
  - exists (length C1). split_and!; [done| |].
    + intros _. rewrite length_app. simpl. lia.
    + left. exists c. split; [|done]. by apply list_lookup_middle.
Qed.

(** X9 (extra): the index preselected for the description column is a valid
    position exactly when some column is named by a description alias up
    to case or the table has at least two columns: for a single column
    without such a name the fallback 1 is out of range. *)
Theorem desc_index_in_range (columns : list string) :
  ∃ i, desc_index columns = Ok i ∧
       (i < length columns ↔
        (∃ c, c ∈ columns ∧ str.lower c ∈ desc_candidates) ∨ 2 ≤ length columns).
Proof.
  unfold desc_index.
  destruct (default_index_spec columns desc_candidates 1 desc_candidates_nonempty)
    as [[Hall ->]|(C1&c&C2&->&Hc&->)].
  - exists 1. split; [done|]. apply alias_absent in Hall. split.
    + intros H. right. lia.
    + intros [?|?]; [done|lia].
  - exists (length C1). split; [done|]. split.
    + intros _. left. exists c. split; [|done].
      rewrite elem_of_app, elem_of_cons. tauto.
    + intros _. rewrite length_app. simpl. lia.
Qed.

Example desc_index_single_column : desc_index ["Summary"] = Ok 1.
Proof. reflexivity. Qed.

Lemma aliases_disjoint a : a ∈ id_candidates → a ∈ desc_candidates → False.
Proof.
  unfold id_candidates, desc_candidates. rewrite !elem_of_cons.
  intros [->|[->|[->|H]]] [?|[?|[?|H']]]; try done;
    by apply not_elem_of_nil in H || by apply not_elem_of_nil in H'.
Qed.

(** X10 (extra): for distinct string labels, when both an ID alias and a
    description alias name a column, or when neither does and the table has
    at least two columns, the two preselected positions are valid and hold
    two different columns. *)
Theorem default_columns_differ (columns : list string) :
  NoDup columns →
  ((∃ c, c ∈ columns ∧ str.lower c ∈ id_candidates) ∧
   (∃ c, c ∈ columns ∧ str.lower c ∈ desc_candidates))
  ∨ ((¬ ∃ c, c ∈ columns ∧ str.lower c ∈ id_candidates) ∧
     (¬ ∃ c, c ∈ columns ∧ str.lower c ∈ desc_candidates) ∧
     2 ≤ length columns) →
  ∃ i j c d,
    id_index columns = Ok i ∧ desc_index columns = Ok j ∧
    columns !! i = Some c ∧ columns !! j = Some d ∧ i ≠ j ∧ c ≠ d.
Proof.
  intros Hnd Hcase. unfold id_index, desc_index.
  destruct (default_index_spec columns id_candidates 0 id_candidates_nonempty)
    as [[Hi ->]|(C1&c&C2&HC&Hc&->)];
  destruct (default_index_spec columns desc_candidates 1 desc_candidates_nonempty)
    as [[Hj ->]|(D1&d&D2&HD&Hd&->)].
  - destruct Hcase as [[Hid _]|(_&_&Hlen)].
    { exfalso. by apply (alias_absent _ _ Hi). }
    destruct columns as [|c0 [|c1 rest]]; simpl in Hlen; [lia|lia|].
    exists 0, 1, c0, c1. split_and!; [done..|].
    intros ->. apply NoDup_cons in Hnd as [Hn _]. apply Hn. left.
  - exfalso. destruct Hcase as [[Hid _]|(_&Hno&_)].
    + by apply (alias_absent _ _ Hi).
    + apply Hno. exists d. split; [|done].
      rewrite HD, elem_of_app, elem_of_cons. tauto.
  - exfalso. destruct Hcase as [[_ Hdesc]|(Hno&_&_)].
    + by apply (alias_absent _ _ Hj).
    + apply Hno. exists c. split; [|done].
      rewrite HC, elem_of_app, elem_of_cons. tauto.
  - assert (Hcd : columns !! length C1 = Some c) by (rewrite HC; by apply list_lookup_middle).
    assert (Hdc : columns !! length D1 = Some d) by (rewrite HD; by apply list_lookup_middle).
    assert (Hne : c ≠ d) by (intros ->; by eapply aliases_disjoint).
    exists (length C1), (length D1), c, d. split_and!; [done..| |done].
    intros Heq. rewrite Heq in Hcd. congruence.
Qed.

Lemma default_columns_differ_witness :
  NoDup ["Story ID"; "Title"; "Description"] ∧
  ((∃ c, c ∈ ["Story ID"; "Title"; "Description"] ∧ str.lower c ∈ id_candidates) ∧
   (∃ c, c ∈ ["Story ID"; "Title"; "Description"] ∧ str.lower c ∈ desc_candidates)) ∧
  ∃ i j c d,
    id_index ["Story ID"; "Title"; "Description"] = Ok i ∧
    desc_index ["Story ID"; "Title"; "Description"] = Ok j ∧
    ["Story ID"; "Title"; "Description"] !! i = Some c ∧
    ["Story ID"; "Title"; "Description"] !! j = Some d ∧ i ≠ j ∧ c ≠ d.
Proof.
  assert (H1 : NoDup ["Story ID"; "Title"; "Description"]).
  { apply (bool_decide_eq_true_1 (NoDup ["Story ID"; "Title"; "Description"])).
    by vm_compute. }
  assert (H2 : (∃ c, c ∈ ["Story ID"; "Title"; "Description"] ∧ str.lower c ∈ id_candidates) ∧
               (∃ c, c ∈ ["Story ID"; "Title"; "Description"] ∧ str.lower c ∈ desc_candidates)).
  { split; [exists "Story ID"|exists "Description"]; split.
    - left.
    - right. right. left.
    - right. right. left.
    - left. }
  split; [exact H1|]. split; [exact H2|].
  exact (default_columns_differ _ H1 (or_introl H2)).
Defined.

Example defaults_without_aliases :
  id_index (pd.columns tracker) = Ok 0 ∧ desc_index (pd.columns tracker) = Ok 1.
Proof. by split. Qed.

(** With only one of the two found, both select boxes can start on the same
    column. *)
Example defaults_can_coincide :
  id_index ["Title"; "ID"] = Ok 1 ∧ desc_index ["Title"; "ID"] = Ok 1.
Proof. by split. Qed.

(** ** Combining: tables with one header, and the shape of the result *)

Lemma union_columns_known acc cols :
  (∀ c, c ∈ cols → c ∈ acc) → pd.union_columns acc cols = acc.
Proof.
  unfold pd.union_columns. induction cols as [|x cols IH]; intros H; [done|].
  simpl. rewrite bool_decide_eq_true_2 by (apply H; left).
  apply IH. intros c Hc. apply H. by right.
Qed.

Lemma union_columns_fresh acc cols :
  NoDup (acc ++ cols) → pd.union_columns acc cols = acc ++ cols.
Proof.
  unfold pd.union_columns. revert acc.
  induction cols as [|x cols IH]; intros acc Hnd; simpl.
  - by rewrite app_nil_r.
  - assert (Hx : x ∉ acc).
    { apply NoDup_app in Hnd as (_&Hd&_). intros Hin. apply (Hd x Hin). left. }
    rewrite bool_decide_eq_false_2 by done.
    rewrite (cons_middle x acc cols), app_assoc. apply IH.
    by rewrite <-app_assoc.
Qed.

Lemma union_same_header cols dfs acc :
  Forall (fun df => pd.columns df = cols) dfs →
  (∀ c, c ∈ cols → c ∈ acc) →
  foldl (fun a df => pd.union_columns a (pd.columns df)) acc dfs = acc.
Proof.
  intros Hall Hacc. induction Hall as [|df dfs Hdf _ IH]; [done|].
  simpl. rewrite Hdf, union_columns_known by done. exact IH.
Qed.

Lemma get_loc_NoDup l p c :
  NoDup l → l !! p = Some c → pd.get_loc c l = Some p.
Proof.
  intros Hnd Hp. destruct (get_loc_is_Some c l) as [q Hq].
  { by eapply list_elem_of_lookup_2. }
  rewrite Hq. f_equal. apply get_loc_lookup in Hq.
  by eapply NoDup_lookup.
Qed.

Lemma reindex_same cols row :
  NoDup cols → length row = length cols → pd.reindex cols cols row = row.
Proof.
  intros Hnd Hlen. apply list_eq. intros p.
  destruct (cols !! p) as [c|] eqn:Hp.
  - rewrite (reindex_lookup _ _ _ _ _ Hp), (get_loc_NoDup _ _ _ Hnd Hp).
    unfold pd.cell_at.
    destruct (lookup_lt_is_Some_2 row p) as [v Hv].
    { rewrite Hlen. by eapply lookup_lt_Some. }
    by rewrite Hv.
  - apply lookup_ge_None in Hp.
    rewrite (proj2 (lookup_ge_None row p)) by lia.
    apply lookup_ge_None. unfold pd.reindex. rewrite length_map. lia.
Qed.

(** X11 (extra): when every table is well formed, has the same header and
    holds no missing cell, combining keeps that header and appends the
    rows as they are; a single such table is returned as it is. *)
Theorem concat_same_header (cols : list string) (dfs : list pd.DataFrame) :
  dfs ≠ [] →
  Forall (fun df => pd.well_formed df ∧ pd.columns df = cols ∧
                    Forall (Forall (fun v => v ≠ pd.NaN)) (pd.rows df)) dfs →
  pd.concat dfs = Ok {| pd.columns := cols; pd.rows := flat_map pd.rows dfs |}.
Proof.
  intros Hne Hfull. rewrite (concat_value dfs Hne).
  assert (Hall : Forall (fun df => pd.well_formed df ∧ pd.columns df = cols) dfs).
  { eapply Forall_impl; [exact Hfull|]. by intros df (?&?&_). }
  clear Hfull.
  assert (Hcols : foldl (fun a df => pd.union_columns a (pd.columns df)) [] dfs = cols).
  { destruct dfs as [|df dfs]; [done|].
    apply Forall_cons in Hall as [[[Hnd _] Hdf] Hall]. simpl.
    rewrite Hdf in *. rewrite (union_columns_fresh [] cols Hnd). simpl.
    apply (union_same_header cols); [|done].
    eapply Forall_impl; [exact Hall|]. by intros ? [_ ?]. }
  rewrite Hcols. do 2 f_equal.
  clear Hne Hcols. induction Hall as [|df dfs [[Hnd Hfull] Hdf] _ IH]; [done|].
  simpl. rewrite IH. f_equal. rewrite Hdf in *.
  rewrite <-(map_id (pd.rows df)) at 2. apply map_ext_in.
  intros row Hrow. rewrite Forall_forall in Hfull.
  apply reindex_same; [done|]. apply Hfull. by apply list_elem_of_In.
Qed.

Lemma concat_same_header_witness :
  [stories; stories] ≠ [] ∧
  Forall (fun df => pd.well_formed df ∧ pd.columns df = ["id"; "desc"] ∧
                    Forall (Forall (fun v => v ≠ pd.NaN)) (pd.rows df))
    [stories; stories] ∧
  pd.concat [stories; stories]
  = Ok {| pd.columns := ["id"; "desc"]; pd.rows := flat_map pd.rows [stories; stories] |}.
Proof.
  assert (H1 : [stories; stories] ≠ []) by discriminate.
  assert (H0 : Forall (Forall (fun v => v ≠ pd.NaN)) (pd.rows stories)).
  { repeat (constructor; [repeat (constructor; [discriminate|]); constructor|]).
    constructor. }
  assert (H2 : Forall (fun df => pd.well_formed df ∧ pd.columns df = ["id"; "desc"] ∧
                                 Forall (Forall (fun v => v ≠ pd.NaN)) (pd.rows df))
                 [stories; stories]).
  { repeat (constructor; [split_and!; [apply stories_well_formed|reflexivity|exact H0]|]).
    constructor. }
  split; [exact H1|]. split; [exact H2|].
  exact (concat_same_header ["id"; "desc"] [stories; stories] H1 H2).
Defined.

(** X12 (extra): whatever tables are combined, the combined table is well
    formed: its labels are distinct and every row has one cell per
    column. *)
Theorem concat_well_formed (dfs : list pd.DataFrame) :
  dfs ≠ [] →
  ∃ T, pd.concat dfs = Ok T ∧ pd.well_formed T.
Proof.
  intros Hne. rewrite (concat_value dfs Hne). eexists. split; [done|].
  split; cbn [pd.columns pd.rows].
  - by destruct (ordered_union_frames [] [] dfs ordered_union_nil) as [? _].
  - apply Forall_forall. intros row Hrow. apply list_elem_of_In in Hrow.
    apply in_flat_map in Hrow as (df&_&Hrow).
    apply in_map_iff in Hrow as (r&<-&_).
    unfold pd.reindex. by rewrite length_map.
Qed.

Lemma concat_well_formed_witness :
  [stories; backlog; tracker] ≠ [] ∧
  ∃ T, pd.concat [stories; backlog; tracker] = Ok T ∧ pd.well_formed T.
Proof.
  split; [discriminate|].
  apply (concat_well_formed [stories; backlog; tracker]). discriminate.
Defined.

(** ** Reading the uploads *)

Lemma readable_cons file rest :
  readable (file :: rest)
  = match read_excel file with
    | inr df => df :: readable rest
    | inl _ => readable rest
    end.
Proof. unfold readable. simpl. by destruct (read_excel file). Qed.

Lemma read_errors_cons file rest :
  read_errors (file :: rest)
  = match read_excel file with
    | inr _ => read_errors rest
    | inl e => st_error (error_message file e) :: read_errors rest
    end.
Proof. unfold read_errors. simpl. by destruct (read_excel file). Qed.

Lemma read_files_spec uploaded_files dfs shown :
  read_files uploaded_files dfs shown
  = (dfs ++ readable uploaded_files, shown ++ read_errors uploaded_files).
Proof.
  revert dfs shown. induction uploaded_files as [|file rest IH]; intros dfs shown.
  - simpl. by rewrite !app_nil_r.
  - rewrite readable_cons, read_errors_cons. simpl.
    destruct (read_excel file); rewrite IH; by rewrite <-?app_assoc.
Qed.

Lemma readable_or_error uploaded_files :
  length (readable uploaded_files) + length (read_errors uploaded_files)
  = length uploaded_files.
Proof.
  induction uploaded_files as [|file rest IH]; [done|].
  rewrite readable_cons, read_errors_cons.
  destruct (read_excel file); simpl; lia.
Qed.

(** X13 (extra): for a non-empty upload, a file that cannot be read costs
    one error notice and nothing else: the notices are the errors of the
    unreadable files in upload order, the run stops exactly when no file
    could be read, and otherwise the tables of the readable files are
    combined in upload order, with as many rows as they have together.
    [pd.concat] is never called on an empty list, so line 57 never
    raises. *)
Theorem load_combines_readable (uploaded_files : list uploaded_file) :
  uploaded_files ≠ [] →
  snd (load uploaded_files) = read_errors uploaded_files ∧
  length (readable uploaded_files) + length (read_errors uploaded_files)
    = length uploaded_files ∧
  match fst (load uploaded_files) with
  | Stopped => readable uploaded_files = []
  | Loaded combined_df =>
      readable uploaded_files ≠ [] ∧
      pd.concat (readable uploaded_files) = Ok combined_df ∧
      length (pd.rows combined_df) = row_count (readable uploaded_files)
  | NoUpload | Failed _ => False
  end.
Proof.
  intros Hne. unfold load. destruct uploaded_files as [|file rest]; [done|].
  rewrite read_files_spec. cbn [app].
  set (files := file :: rest).
  split_and!.
  - by destruct (readable files) as [|df dfs]; [|rewrite concat_value].
  - apply readable_or_error.
  - destruct (readable files) as [|df dfs] eqn:Hr; [done|].
    rewrite concat_value by done. cbn [fst]. split_and!; [done|done|].
    cbn [pd.rows]. rewrite flat_map_length. unfold row_count. f_equal.
    apply map_ext. intros ?. by rewrite length_map.
Qed.

Lemma load_combines_readable_witness :
  [mkUpload "a.xlsx" (inr stories); mkUpload "b.xls" (inl "not a workbook");
   mkUpload "c.xlsx" (inr backlog)] ≠ [] ∧
  let uploaded_files :=
    [mkUpload "a.xlsx" (inr stories); mkUpload "b.xls" (inl "not a workbook");
     mkUpload "c.xlsx" (inr backlog)] in
  snd (load uploaded_files) = read_errors uploaded_files ∧
  length (readable uploaded_files) + length (read_errors uploaded_files)
    = length uploaded_files ∧
  match fst (load uploaded_files) with
  | Stopped => readable uploaded_files = []
  | Loaded combined_df =>
      readable uploaded_files ≠ [] ∧
      pd.concat (readable uploaded_files) = Ok combined_df ∧
      length (pd.rows combined_df) = row_count (readable uploaded_files)
  | NoUpload | Failed _ => False
  end.
Proof.
  split; [discriminate|].
  apply (load_combines_readable
           [mkUpload "a.xlsx" (inr stories); mkUpload "b.xls" (inl "not a workbook");
            mkUpload "c.xlsx" (inr backlog)]).
  discriminate.
Defined.

Example load_scenario :
  load [mkUpload "a.xlsx" (inr stories); mkUpload "b.xls" (inl "not a workbook")]
  = (Loaded stories, [st_error "Error reading b.xls: not a workbook"]).
Proof. reflexivity. Qed.

Example load_nothing_readable :
  load [mkUpload "b.xls" (inl "not a workbook")]
  = (Stopped, [st_error "Error reading b.xls: not a workbook"]).
Proof. reflexivity. Qed.

Example load_no_upload :
  load [] = (NoUpload, [st_info "Upload one or more Excel files to begin."]).
Proof. reflexivity. Qed.

(** ** What a run of the filter shows, and how it can fail *)

Lemma select_length_matched {A : Type} (bs : list bool) (l : list A) :
  length bs = length l → length (pd.select bs l) = matched bs.
Proof.
  unfold matched. revert l. induction bs as [|b bs IH]; intros [|x l] Hlen;
    simplify_eq/=; [done|].
  destruct b.
  - rewrite filter_cons_True by done. simpl. by rewrite (IH l).
  - rewrite filter_cons_False by done. by apply IH.
Qed.

Lemma get_locs_raise labels cols e :
  pd.get_locs labels cols = Raise e →
  ∃ l, e = KeyError l ∧ l ∈ labels ∧ l ∉ cols.
Proof.
  induction labels as [|l labels IH]; [done|]. simpl.
  destruct (pd.get_loc l cols) eqn:Hl.
  - destruct (pd.get_locs labels cols); simpl; [done| |done].
    intros [= <-]. destruct (IH eq_refl) as (l'&?&?&?).
    exists l'. split_and!; [done|by right|done].
  - intros [= <-]. exists l. split_and!; [done|left|by apply get_loc_None].
Qed.

(** The value computed by lines 131-141: how it fails and what it is. *)
Lemma filtered_value_cases df desc_col retain_cols keyword_text mode :
  match filtered_value df desc_col retain_cols keyword_text mode with
  | Ok out =>
      ∃ column bs,
        pd.getitem df desc_col = Ok column ∧
        mask mode (parse_keywords keyword_text) column = Ok bs ∧
        pd.loc df bs retain_cols = Ok out ∧
        pd.columns out = retain_cols ∧
        length (pd.rows out) = matched bs
  | Raise e =>
      ∃ l, e = KeyError l ∧ (l ∉ pd.columns df) ∧ (l = desc_col ∨ l ∈ retain_cols)
  | Stop => False
  end.
Proof.
  unfold filtered_value.
  destruct (pd.getitem df desc_col) as [column|e|] eqn:Hg; simpl.
  3:{ by apply getitem_not_stop in Hg. }
  2:{ unfold pd.getitem in Hg.
      destruct (pd.get_loc desc_col (pd.columns df)) eqn:Hl; [done|].
      injection Hg as <-. exists desc_col.
      split_and!; [done|by apply get_loc_None|by left]. }
  destruct (mask mode (parse_keywords keyword_text) column) as [bs|e|] eqn:Hm.
  2,3: by destruct mode; rewrite ?mask_any, ?mask_all in Hm.
  simpl.
  assert (Hlen : length bs = length (pd.rows df)).
  { rewrite (mask_length _ _ _ _ Hm). by eapply getitem_length. }
  destruct (pd.loc df bs retain_cols) as [out|e|] eqn:Hloc.
  3:{ by apply loc_not_stop in Hloc. }
  - exists column, bs. split_and!; [done..| |].
    + unfold pd.loc in Hloc. rewrite decide_True in Hloc by done.
      destruct (pd.get_locs retain_cols (pd.columns df)); simplify_eq/=. done.
    + unfold pd.loc in Hloc. rewrite decide_True in Hloc by done.
      destruct (pd.get_locs retain_cols (pd.columns df)); simplify_eq/=.
      rewrite length_map. by apply select_length_matched.
  - unfold pd.loc in Hloc. rewrite decide_True in Hloc by done.
    destruct (pd.get_locs retain_cols (pd.columns df)) eqn:Hj; simplify_eq/=.
    destruct (get_locs_raise _ _ _ Hj) as (l&?&?&?).
    exists l. split_and!; [done|done|by right].
Qed.

Lemma filtered_value_ok df desc_col retain_cols keyword_text mode :
  desc_col ∈ pd.columns df →
  (∀ l, l ∈ retain_cols → l ∈ pd.columns df) →
  ∃ out, filtered_value df desc_col retain_cols keyword_text mode = Ok out.
Proof.
  intros Hd Hr.
  pose proof (filtered_value_cases df desc_col retain_cols keyword_text mode) as H.
  destruct (filtered_value df desc_col retain_cols keyword_text mode) as [out|e|];
    [by exists out| |done].
  destruct H as (l&_&Hl&[->|Hin]); [done|]. exfalso. by apply Hl, Hr.
Qed.

(** The run, with what it puts on the page. *)
Lemma filter_stories_outcome combined desc_col retain_cols keyword_text mode σ df :
  heap σ !! combined = Some (Frame df) →
  parse_keywords keyword_text ≠ [] →
  match filtered_value df desc_col retain_cols keyword_text mode with
  | Ok out =>
      ∃ earlier,
        filter_stories combined desc_col retain_cols keyword_text mode σ
        = (Ok (length (heap σ ++ earlier)),
           {| heap := (heap σ ++ earlier) ++ [Frame out];
              page := page σ ++
                [subheader (results_title (length (pd.rows out)));
                 dataframe out;
                 download_button (pd.to_excel out "FilteredStories")
                   "filtered_user_stories.xlsx" xlsx_mime] |})
  | Raise e =>
      ∃ extra,
        filter_stories combined desc_col retain_cols keyword_text mode σ
        = (Raise e, {| heap := heap σ ++ extra; page := page σ |})
  | Stop => False
  end.
Proof.
  intros Hdf HK. unfold filter_stories.
  destruct (str.truthy (str.strip keyword_text)) eqn:Htruthy; cbn [negb].
  2:{ by apply blank_text_no_keywords in Htruthy. }
  rewrite bool_decide_eq_false_2 by done.
  destruct σ as [H pg]. cbn [heap page] in *.
  pose proof (filtered_value_cases df desc_col retain_cols keyword_text mode) as Hcases.
  unfold filtered_value in *.
  destruct (pd.getitem df desc_col) as [column|e|] eqn:Hg; simpl in *; [| |done].
  2:{ rewrite (bind_raise _ _ _ _ _
                 (df_getitem_raise combined desc_col {| heap := H; page := pg |} df e Hdf Hg)).
      exists []. by rewrite app_nil_r. }
  rewrite (bind_ok _ _ _ _ _
             (df_getitem_run combined desc_col {| heap := H; page := pg |} df column Hdf Hg)).
  cbn [heap page].
  rewrite (bind_ok _ _ _ _ _
             (series_astype_str_run (length H)
                {| heap := H ++ [Series column]; page := pg |} column
                (list_lookup_middle H [] (Series column) (length H) eq_refl))).
  cbn [heap page].
  set (H2 := (H ++ [Series column]) ++ [StrSeries (pd.astype_str column)]).
  assert (Hdf2 : H2 !! combined = Some (Frame df)).
  { unfold H2. by do 2 apply lookup_app_l_Some. }
  destruct (compute_mask_run combined (length (H ++ [Series column])) mode
              (parse_keywords keyword_text) {| heap := H2; page := pg |} df column)
    as (bs&extra&Hmask&Hrun); cbn [heap page].
  { done. }
  { by apply list_lookup_middle. }
  { by eapply getitem_length. }
  rewrite (bind_ok _ _ _ _ _ Hrun). cbn [heap page] in *.
  rewrite Hmask in *. simpl in Hcases |- *.
  set (H3 := H2 ++ BoolSeries bs :: extra).
  assert (Hloc := df_loc_run combined (length H2) retain_cols
                    {| heap := H3; page := pg |} df bs).
  cbn [heap page] in Hloc.
  specialize (Hloc (lookup_app_l_Some _ _ _ _ Hdf2)
                   (list_lookup_middle H2 extra (BoolSeries bs) (length H2) eq_refl)).
  destruct (pd.loc df bs retain_cols) as [out|e|]; [| |done].
  2:{ rewrite (bind_raise _ _ _ _ _ Hloc).
      exists ([Series column; StrSeries (pd.astype_str column)] ++ BoolSeries bs :: extra).
      do 2 f_equal. unfold H3, H2. by rewrite <-!app_assoc. }
  rewrite (bind_ok _ _ _ _ _ Hloc).
  rewrite (bind_ok _ _ _ _ _
             (df_copy_run (length H3) {| heap := H3 ++ [Frame out]; page := pg |} out
                (list_lookup_middle H3 [] (Frame out) (length H3) eq_refl))).
  cbn [heap page].
  rewrite (bind_ok _ _ _ _ _
             (read_frame_run (length (H3 ++ [Frame out]))
                {| heap := (H3 ++ [Frame out]) ++ [Frame out]; page := pg |} out
                (list_lookup_middle (H3 ++ [Frame out]) [] (Frame out) _ eq_refl))).
  unfold mbind, M_bind, emit, mret, M_ret. cbn [heap page fst snd].
  exists ([Series column; StrSeries (pd.astype_str column)] ++ BoolSeries bs :: extra
          ++ [Frame out]).
  assert (Heq : H3 ++ [Frame out]
                = H ++ [Series column; StrSeries (pd.astype_str column)]
                    ++ BoolSeries bs :: extra ++ [Frame out]).
  { unfold H3, H2. rewrite <-?app_assoc. simpl. by rewrite <-?app_assoc. }
  rewrite Heq. do 2 f_equal. by rewrite <-!app_assoc.
Qed.

Lemma no_keywords_halt combined desc_col retain_cols keyword_text mode σ :
  parse_keywords keyword_text = [] →
  ∃ msg,
    filter_stories combined desc_col retain_cols keyword_text mode σ
    = (Stop, {| heap := heap σ; page := page σ ++ [warning msg] |}).
Proof.
  intros Hnone. unfold filter_stories.
  destruct (str.truthy (str.strip keyword_text)); simpl.
  - rewrite Hnone. simpl. by eexists.
  - by eexists.
Qed.

(** X14 (extra): a run of the filter stops exactly when the text holds no
    keyword; the only exception it can raise is a [KeyError] for the
    description column or a retained column that the combined table lacks,
    and then nothing is shown; with keywords and columns taken from the
    table it always returns a result. *)
Theorem filter_stories_failures (combined_df : nat) (desc_col : string)
    (retain_cols : list string) (keyword_text : string) (mode : match_mode)
    (σ : store) (df : pd.DataFrame) :
  heap σ !! combined_df = Some (Frame df) →
  let r := filter_stories combined_df desc_col retain_cols keyword_text mode σ in
  (r.1 = Stop ↔ parse_keywords keyword_text = []) ∧
  (∀ e, r.1 = Raise e →
     page r.2 = page σ ∧
     ∃ l, e = KeyError l ∧ (l ∉ pd.columns df) ∧ (l = desc_col ∨ l ∈ retain_cols)) ∧
  (parse_keywords keyword_text ≠ [] →
   desc_col ∈ pd.columns df →
   (∀ l, l ∈ retain_cols → l ∈ pd.columns df) →
   ∃ filtered, r.1 = Ok filtered).
Proof.
  intros Hdf r. subst r.
  destruct (decide (parse_keywords keyword_text = [])) as [HK|HK].
  - destruct (no_keywords_halt combined_df desc_col retain_cols keyword_text mode σ HK)
      as (msg&->).
    cbn [fst snd]. split_and!; [done|done|done].
  - pose proof (filter_stories_outcome combined_df desc_col retain_cols keyword_text
                  mode σ df Hdf HK) as Hrun.
    pose proof (filtered_value_cases df desc_col retain_cols keyword_text mode) as Hcases.
    destruct (filtered_value df desc_col retain_cols keyword_text mode) as [out|e|] eqn:Hv;
      [| |done].
    + destruct Hrun as (earlier&->). cbn [fst snd]. split_and!; [done|done|].
      intros _ _ _. by eexists.
    + destruct Hrun as (extra&->). cbn [fst snd page]. split_and!; [done| |].
      * intros e' [= <-]. by split.
      * intros _ Hd Hr.
        destruct (filtered_value_ok df desc_col retain_cols keyword_text mode Hd Hr)
          as (out&Hout).
        congruence.
Qed.

Lemma filter_stories_failures_witness :
  heap (initial stories) !! 0 = Some (Frame stories) ∧
  let r := filter_stories 0 "Description" ["id"] "audit" AnyKeyword (initial stories) in
  (r.1 = Stop ↔ parse_keywords "audit" = []) ∧
  (∀ e, r.1 = Raise e →
     page r.2 = page (initial stories) ∧
     ∃ l, e = KeyError l ∧ (l ∉ pd.columns stories) ∧ (l = "Description" ∨ l ∈ ["id"])) ∧
  (parse_keywords "audit" ≠ [] →
   "Description" ∈ pd.columns stories →
   (∀ l, l ∈ ["id"] → l ∈ pd.columns stories) →
   ∃ filtered, r.1 = Ok filtered).
Proof.
  split; [reflexivity|].
  exact (filter_stories_failures 0 "Description" ["id"] "audit" AnyKeyword
           (initial stories) stories eq_refl).
Defined.

Example stale_description_column :
  filter_stories 0 "Description" ["id"] "audit" AnyKeyword (initial stories)
  = (Raise (KeyError "Description"), initial stories).
Proof. reflexivity. Qed.



(** ** The preview and the filtered table *)

Lemma select_map {A B : Type} (f : A → B) (bs : list bool) (l : list A) :
  pd.select bs (map f l) = map f (pd.select bs l).
Proof.
  revert l. induction bs as [|b bs IH]; intros [|x l]; simpl; try done.
  destruct b; simpl; by rewrite IH.
Qed.

Lemma select_sublist {A : Type} (bs : list bool) (l : list A) :
  sublist (pd.select bs l) l.
Proof.
  revert l. induction bs as [|b bs IH]; intros [|x l]; simpl;
    try apply sublist_nil_l.
  destruct b; [by apply sublist_skip|by apply sublist_cons].
Qed.

Lemma select_all {A : Type} (bs : list bool) (l : list A) :
  Forall (fun b => b = true) bs → length bs = length l → pd.select bs l = l.
Proof.
  intros Hall. revert l. induction Hall as [|b bs -> _ IH]; intros [|x l] Hlen;
    simplify_eq/=; [done|]. by rewrite IH.
Qed.

(** X16 (extra): the filtered table is a selection from the table previewed
    at lines 96-100.  For a non-empty list of retained columns that
    [combined_df[retain_cols]] accepts and a mask with one entry per row,
    [loc] succeeds with the same columns, its rows are the masked rows of
    that projection and so a sub-sequence of them in order, and the whole
    projection when every entry is true; the preview is the first ten rows
    of the projection. *)
Theorem filtered_rows_from_projection (df : pd.DataFrame) (bs : list bool)
    (retain_cols : list string) (selected : pd.DataFrame) :
  retain_cols ≠ [] →
  length bs = length (pd.rows df) →
  getitem_list df retain_cols = Ok selected →
  preview df retain_cols = Ok (head 10 selected) ∧
  length (pd.rows (head 10 selected)) = 10 `min` length (pd.rows df) ∧
  ∃ out,
    pd.loc df bs retain_cols = Ok out ∧
    pd.columns out = pd.columns selected ∧
    pd.rows out = pd.select bs (pd.rows selected) ∧
    sublist (pd.rows out) (pd.rows selected) ∧
    (Forall (fun b => b = true) bs → out = selected).
Proof.
  intros Hne Hlen Hsel. unfold preview, pd.loc.
  rewrite bool_decide_eq_false_2 by by destruct retain_cols.
  rewrite Hsel, decide_True by done. unfold getitem_list in Hsel.
  destruct (pd.get_locs retain_cols (pd.columns df)) as [js|e|]; simplify_eq/=.
  split_and!; [done| |].
  - rewrite length_take, length_map. done.
  - eexists. split_and!; [done|done| | |].
    + cbn [pd.rows]. by rewrite select_map.
    + cbn [pd.rows]. rewrite <-select_map. apply select_sublist.
    + intros Hall. f_equal. by rewrite select_all.
Qed.

Lemma filtered_rows_from_projection_witness :
  ["desc"; "id"] ≠ [] ∧
  length [false; true; true] = length (pd.rows stories) ∧
  getitem_list stories ["desc"; "id"]
  = Ok {| pd.columns := ["desc"; "id"];
          pd.rows := [ [pd.CStr "Add masking for PII"; pd.CStr "US1"];
                       [pd.CStr "Improve login speed"; pd.CStr "US2"];
                       [pd.CStr "Audit privacy and security logs"; pd.CStr "US3"] ] |} ∧
  let selected :=
    {| pd.columns := ["desc"; "id"];
       pd.rows := [ [pd.CStr "Add masking for PII"; pd.CStr "US1"];
                    [pd.CStr "Improve login speed"; pd.CStr "US2"];
                    [pd.CStr "Audit privacy and security logs"; pd.CStr "US3"] ] |} in
  preview stories ["desc"; "id"] = Ok (head 10 selected) ∧
  length (pd.rows (head 10 selected)) = 10 `min` length (pd.rows stories) ∧
  ∃ out,
    pd.loc stories [false; true; true] ["desc"; "id"] = Ok out ∧
    pd.columns out = pd.columns selected ∧
    pd.rows out = pd.select [false; true; true] (pd.rows selected) ∧
    sublist (pd.rows out) (pd.rows selected) ∧
    (Forall (fun b => b = true) [false; true; true] → out = selected).
Proof.
  split; [discriminate|]. split; [reflexivity|]. split; [reflexivity|].
  exact (filtered_rows_from_projection stories [false; true; true] ["desc"; "id"] _
           ltac:(discriminate) eq_refl eq_refl).
Defined.

Example preview_nothing_retained : preview stories [] = Stop.
Proof. reflexivity. Qed.

Example preview_unknown_column :
  preview stories ["id"; "owner"] = Raise (KeyError "owner").
Proof. reflexivity. Qed.
